(** * yalog4ts: levels, loggers, the logger factory and the rotating
      local-storage appender

    A shallow embedding of [lib/logger.ts], [lib/logger-factory.ts] and the
    local-storage appender, followed by the properties established about
    them.

    Conventions of the embedding:
    - a TypeScript enum member is a constructor of [Level]; its run-time
      number is [Level_code];
    - a field typed [Level] that the code also assigns [null] or [undefined]
      is an [option Level]; both absent values are [None] (every test the
      code makes on such a field is a truthiness test, which does not tell
      them apart);
    - a JavaScript object used as a dictionary is the [gmap] of its own
      properties (what it inherits from [Object.prototype] is not part of
      it, see [JS.inherited]); where the property order is observable
      ([Object.values], [Object.keys] feeding a list) it is an association
      list in insertion order;
    - [Logger] instances are mutable objects shared between the factory
      cache and the callers: they live in a store and are named by their
      address;
    - a call that may throw returns a [Completion].

    Of the factory, the [help] getter and the binding of the factory to
    the [window] object are left out. *)

From Stdlib Require Import ZArith Lia Ascii String List.
From stdpp Require Import base option list strings gmap fin_maps pretty.

Local Open Scope string_scope.
Local Open Scope Z_scope.
Local Open Scope list_scope.

(* ===================================================================== *)
(** ** JavaScript values and conversions used by the code *)
(* ===================================================================== *)

Module JS.

(** The values handed to the logging methods ([msg: unknown],
    [...optionalParams: any[]]).  An object is known by its reference. *)
Inductive Value : Type :=
| VUndefined
| VNull
| VBool (b : bool)
| VNumber (n : Z)
| VString (s : string)
| VObject (ref : nat).

(** [`${v}`]: the string conversion a template literal applies.  A plain
    object renders through [Object.prototype.toString]; a number is an
    integer, in its decimal rendering (JavaScript's for a magnitude below
    10^21). *)
Definition ToString (v : Value) : string :=
  match v with
  | VUndefined => "undefined"
  | VNull => "null"
  | VBool true => "true"
  | VBool false => "false"
  | VNumber n => pretty n
  | VString s => s
  | VObject _ => "[object Object]"
  end.

(** What [JSON.parse (JSON.stringify a)] gives back for an element [v] of
    an array [a]: [undefined] is written as [null]; an object comes back as
    a copy, which is not told from the original here. *)
Definition JSON_roundtrip (v : Value) : Value :=
  match v with
  | VUndefined => VNull
  | _ => v
  end.

(** *** [isNaN(+s)] for a string [s]

    [+s] applies [StringToNumber]: the string is trimmed of white space
    and must then be empty or a [StrNumericLiteral]; otherwise the result
    is [NaN]. *)

Definition is_white (c : ascii) : bool :=
  let n := nat_of_ascii c in
  ((9 <=? n) && (n <=? 13))%nat || (n =? 32)%nat.

Definition in_range (lo hi : nat) (c : ascii) : bool :=
  let n := nat_of_ascii c in ((lo <=? n) && (n <=? hi))%nat.

Definition is_digit : ascii -> bool := in_range 48 57.
Definition is_octal : ascii -> bool := in_range 48 55.
Definition is_binary : ascii -> bool := in_range 48 49.
Definition is_hex (c : ascii) : bool :=
  is_digit c || in_range 65 70 c || in_range 97 102 c.

Fixpoint drop_while (p : ascii -> bool) (s : list ascii) : list ascii :=
  match s with
  | c :: r => if p c then drop_while p r else s
  | [] => []
  end.

Definition trim (s : list ascii) : list ascii :=
  rev (drop_while is_white (rev (drop_while is_white s))).

Definition nonempty_all (p : ascii -> bool) (s : list ascii) : bool :=
  match s with
  | [] => false
  | _ => forallb p s
  end.

Definition starts_with_digit (s : list ascii) : bool :=
  match s with
  | c :: _ => is_digit c
  | [] => false
  end.

(** [s] is empty or an [ExponentPart]. *)
Definition exponent_opt (s : list ascii) : bool :=
  match s with
  | [] => true
  | e :: r =>
      (Ascii.eqb e "e" || Ascii.eqb e "E") &&
      match r with
      | sign :: t =>
          if Ascii.eqb sign "+" || Ascii.eqb sign "-"
          then nonempty_all is_digit t
          else nonempty_all is_digit r
      | [] => false
      end
  end.

(** [StrUnsignedDecimalLiteral]. *)
Definition unsigned_decimal (s : list ascii) : bool :=
  if String.eqb (string_of_list_ascii s) "Infinity" then true
  else
    let rest := drop_while is_digit s in
    match rest with
    | dot :: frac =>
        if Ascii.eqb dot "."
        then (starts_with_digit s || starts_with_digit frac)
             && exponent_opt (drop_while is_digit frac)
        else starts_with_digit s && exponent_opt rest
    | [] => starts_with_digit s
    end.

(** [StrNumericLiteral]: a signed decimal, or an unsigned binary, octal or
    hexadecimal integer. *)
Definition numeric_literal (s : list ascii) : bool :=
  match s with
  | z :: x :: digits =>
      if Ascii.eqb z "0" && (Ascii.eqb x "x" || Ascii.eqb x "X")
      then nonempty_all is_hex digits
      else if Ascii.eqb z "0" && (Ascii.eqb x "o" || Ascii.eqb x "O")
      then nonempty_all is_octal digits
      else if Ascii.eqb z "0" && (Ascii.eqb x "b" || Ascii.eqb x "B")
      then nonempty_all is_binary digits
      else if Ascii.eqb z "+" || Ascii.eqb z "-"
      then unsigned_decimal (x :: digits)
      else unsigned_decimal s
  | [sign] =>
      if Ascii.eqb sign "+" || Ascii.eqb sign "-" then false
      else unsigned_decimal s
  | [] => false
  end.

Definition isNaN_of_string (s : string) : bool :=
  match trim (list_ascii_of_string s) with
  | [] => false
  | t => negb (numeric_literal t)
  end.

(** *** [String.prototype.replace] with a string pattern

    Only the first occurrence of the pattern is replaced.  (The
    replacement strings used by the code contain no [$], so no
    replacement pattern is expanded.) *)

Fixpoint replace (pat by_ s : string) {struct s} : string :=
  if String.prefix pat s
  then by_ +:+ substring (String.length pat) (String.length s) s
  else match s with
       | EmptyString => EmptyString
       | String c r => String c (replace pat by_ r)
       end.

(** The double-quote character. *)
Definition quote : string := String (ascii_of_nat 34) EmptyString.

(** [Array.prototype.join]. *)
Fixpoint join (sep : string) (l : list string) : string :=
  match l with
  | [] => EmptyString
  | [x] => x
  | x :: r => x +:+ sep +:+ join sep r
  end.

(** *** Plain objects as dictionaries

    The property names that every plain object inherits from
    [Object.prototype]: a read [o[name]] under one of them finds the
    inherited member when [o] has no property of its own of that name. *)
Definition Object_prototype : list string :=
  ["constructor"; "__defineGetter__"; "__defineSetter__"; "hasOwnProperty";
   "__lookupGetter__"; "__lookupSetter__"; "isPrototypeOf"; "propertyIsEnumerable";
   "toString"; "valueOf"; "__proto__"; "toLocaleString"].

Definition inherited (name : string) : bool :=
  existsb (String.eqb name) Object_prototype.

(** *** Completions: a call returns or throws *)

Inductive Exn : Type := TypeError | SyntaxError.

Inductive Completion (A : Type) : Type :=
| Normal (a : A)
| Throw (e : Exn)
(** the call leaves the fragment of JavaScript modelled here *)
| Beyond.
Arguments Normal {A} a.
Arguments Throw {A} e.
Arguments Beyond {A}.

End JS.

(* ===================================================================== *)
(** ** [lib/logger.ts] *)
(* ===================================================================== *)

(** [enum Level { OFF, ERROR, WARN, INFO, DEBUG, TRACE }] *)
Inductive Level : Type := OFF | ERROR | WARN | INFO | DEBUG | TRACE.

#[export] Instance Level_eq_dec : EqDecision Level.
Proof. solve_decision. Defined.

Definition Level_code (l : Level) : Z :=
  match l with
  | OFF => 0 | ERROR => 1 | WARN => 2 | INFO => 3 | DEBUG => 4 | TRACE => 5
  end.

(** [Level[l]] for a member [l]: the reverse mapping of the enum object. *)
Definition Level_name (l : Level) : string :=
  match l with
  | OFF => "OFF" | ERROR => "ERROR" | WARN => "WARN"
  | INFO => "INFO" | DEBUG => "DEBUG" | TRACE => "TRACE"
  end.

(** [Level[n]] for a number [n]: defined on the six codes only. *)
Definition Level_of_code (n : Z) : option Level :=
  match n with
  | 0 => Some OFF | 1 => Some ERROR | 2 => Some WARN
  | 3 => Some INFO | 4 => Some DEBUG | 5 => Some TRACE
  | _ => None
  end.

(** [+Level[s]] for a string [s] that is not numeric: a number on the six
    member names, [NaN] on every other key. *)
Definition Level_of_name (s : string) : option Level :=
  if String.eqb s "OFF" then Some OFF
  else if String.eqb s "ERROR" then Some ERROR
  else if String.eqb s "WARN" then Some WARN
  else if String.eqb s "INFO" then Some INFO
  else if String.eqb s "DEBUG" then Some DEBUG
  else if String.eqb s "TRACE" then Some TRACE
  else None.

(** The argument of [getValidLevel], of type [string | Level | number], to
    which callers also pass [null] and [undefined].  Numbers are integers
    here; a fractional number is no key of the enum object and behaves like
    an integer out of range. *)
Inductive LevelInput : Type :=
| InNull
| InUndefined
| InString (s : string)
| InNumber (n : Z).

Definition InLevel (l : Level) : LevelInput := InNumber (Level_code l).

(** [getValidLevel]; [None] is the [null] it returns.  The [default] branch
    of the [switch] is not reachable from [LevelInput]. *)
Definition getValidLevel (level : LevelInput) : option Level :=
  match level with
  | InNull | InUndefined => None
  | InString s =>
      if JS.isNaN_of_string s
      then Level_of_name s
      else None
  | InNumber n =>
      match Level_of_code n with
      | None => None
      | Some l => Some l
      end
  end.

(** Truthiness of a value typed [Level]: absent values and the number [0]
    ([OFF]) are falsy. *)
Definition truthy (v : option Level) : option Level :=
  match v with
  | Some OFF => None
  | Some l => Some l
  | None => None
  end.

(** An appender is an object known by its reference. *)
Definition Appender : Type := nat.

(** [keyof Appender] *)
Inductive LogFunction : Type :=
| error_ | warn_ | info_ | debug_ | trace_ | dir_ | dirxml_ | group_ | groupEnd_.

(** One invocation [appender[logFunction](...args)]. *)
Record Call : Type := mkCall {
  target : Appender;
  method : LogFunction;
  args : list JS.Value
}.

Module Logger.

Record t : Type := mk {
  name : string;
  theRootLevel : Level;
  theLevel : option Level;
  effectiveLevel : Level;
  appenders : list Appender
}.

Definition rootLevel (this : t) : Level := theRootLevel this.
Definition level (this : t) : option Level := theLevel this.

(** [this.effectiveLevel = this.level || this.rootLevel] *)
Definition calculateEffectiveLevel (this : t) : t :=
  mk (name this) (theRootLevel this) (theLevel this)
     (match truthy (level this) with
      | Some l => l
      | None => rootLevel this
      end)
     (appenders this).

Definition set_rootLevel (value : Level) (this : t) : t :=
  calculateEffectiveLevel
    (mk (name this) value (theLevel this) (effectiveLevel this) (appenders this)).

Definition set_level (value : option Level) (this : t) : t :=
  calculateEffectiveLevel
    (mk (name this) (theRootLevel this) value (effectiveLevel this) (appenders this)).

Definition set_appenders (value : list Appender) (this : t) : t :=
  mk (name this) (theRootLevel this) (theLevel this) (effectiveLevel this) value.

(** The constructor assigns [rootLevel], then [level]; both go through
    the setters.  The fields are unassigned before. *)
Definition new (name : string) (rootLevel : Level) (level : option Level)
    (appenders : list Appender) : t :=
  set_level level
    (set_rootLevel rootLevel (mk name rootLevel None rootLevel appenders)).

Definition shouldLog (level : Level) (this : t) : bool :=
  Level_code level <=? Level_code (effectiveLevel this).

Definition formatLogMessage (level : Level) (msg : JS.Value) (this : t) : string :=
  "[" +:+ Level_name level +:+ "] - " +:+ name this +:+ ": " +:+ JS.ToString msg.

(** [log]: the calls made on the appenders, in the order they are made.
    [optionalParams] is [None] when the caller leaves it out, as [groupEnd]
    does, which also leaves out [msg]. *)
Definition log (requiredLevel : Level) (logFunction : LogFunction)
    (msg : JS.Value) (optionalParams : option (list JS.Value))
    (format : bool) (this : t) : list Call :=
  if shouldLog requiredLevel this
  then map (fun appender =>
              mkCall appender logFunction
                ((if format
                  then JS.VString (formatLogMessage requiredLevel msg this)
                  else msg)
                 :: default [] optionalParams))
           (appenders this)
  else [].

Definition error msg optionalParams := log ERROR error_ msg (Some optionalParams) true.
Definition warn msg optionalParams := log WARN warn_ msg (Some optionalParams) true.
Definition info msg optionalParams := log INFO info_ msg (Some optionalParams) true.
Definition debug msg optionalParams := log DEBUG debug_ msg (Some optionalParams) true.
Definition trace msg optionalParams := log TRACE trace_ msg (Some optionalParams) true.
Definition dir obj level := log level dir_ obj (Some []) false.
Definition dirxml obj level := log level dirxml_ obj (Some []) false.
Definition group msg optionalParams := log DEBUG group_ msg (Some optionalParams) true.
Definition groupEnd := log DEBUG groupEnd_ JS.VUndefined None true.

Definition isTraceEnabled := shouldLog TRACE.
Definition isDebugEnabled := shouldLog DEBUG.
Definition isInfoEnabled := shouldLog INFO.
Definition isWarnEnabled := shouldLog WARN.
Definition isErrorEnabled := shouldLog ERROR.

End Logger.

(* ===================================================================== *)
(** ** The regular expressions [setLogLevel] builds *)
(* ===================================================================== *)

(** [new RegExp('^' + arg + '$')] and [RegExp.prototype.test], for the
    patterns a logger-name selector gives rise to: literal characters, [.]
    and the quantifier [*].  A source using any other pattern syntax is
    [Unsupported]: the embedding says nothing about it.  Names and patterns
    are ASCII. *)
Module RegExp.

Inductive Atom : Type :=
| Char (c : ascii)
| Dot.

Inductive Term : Type :=
| Once (a : Atom)
| Star (a : Atom).

Inductive Source : Type :=
| Pattern (p : list Term)
(** [SyntaxError: nothing to repeat] *)
| Invalid
| Unsupported.

(** The syntax characters other than [.] and [*]. *)
Definition unsupported_char (c : ascii) : bool :=
  existsb (Ascii.eqb c)
    (ascii_of_nat 92 :: list_ascii_of_string "^$+?()[]{}|").

Definition atom_of (c : ascii) : Atom :=
  if Ascii.eqb c "." then Dot else Char c.

(** The disjunction-free body between the anchors; [None] when a [*] has
    nothing to repeat. *)
Fixpoint parse (s : list ascii) : option (list Term) :=
  match s with
  | [] => Some []
  | c :: r =>
      if Ascii.eqb c "*" then None
      else
        match r with
        | q :: r' =>
            if Ascii.eqb q "*"
            then cons (Star (atom_of c)) <$> parse r'
            else cons (Once (atom_of c)) <$> parse r
        | [] => Some [Once (atom_of c)]
        end
  end.

(** [new RegExp(source)] for a source of the shape [^body$]. *)
Definition new (source : string) : Source :=
  match list_ascii_of_string source with
  | hat :: rest =>
      match rev rest with
      | dollar :: ydob =>
          if Ascii.eqb hat "^" && Ascii.eqb dollar "$"
          then
            let body := rev ydob in
            if existsb unsupported_char body then Unsupported
            else match parse body with
                 | Some p => Pattern p
                 | None => Invalid
                 end
          else Unsupported
      | [] => Unsupported
      end
  | [] => Unsupported
  end.

(** [.] matches every character but a line terminator. *)
Definition accepts (a : Atom) (c : ascii) : bool :=
  match a with
  | Char d => Ascii.eqb d c
  | Dot => negb (Ascii.eqb c (ascii_of_nat 10) || Ascii.eqb c (ascii_of_nat 13))
  end.

(** Both anchors are present: the whole subject has to be consumed. *)
Fixpoint matches (p : list Term) (s : list ascii) {struct p} : bool :=
  match p with
  | [] => match s with [] => true | _ => false end
  | Once a :: p' =>
      match s with
      | c :: s' => accepts a c && matches p' s'
      | [] => false
      end
  | Star a :: p' =>
      (fix star (s : list ascii) : bool :=
         matches p' s
         || match s with
            | c :: s' => accepts a c && star s'
            | [] => false
            end) s
  end.

Definition test (p : list Term) (subject : string) : bool :=
  matches p (list_ascii_of_string subject).

End RegExp.

(* ===================================================================== *)
(** ** [lib/logger-factory-config.ts] and the storage *)
(* ===================================================================== *)

(** The persisted record, as [JSON.parse] returns it.  Either field may be
    missing; a parsed value that is no object ([null], a number, ...) has
    neither. *)
Module LoggerFactoryConfig.

Record t : Type := mk {
  levels : option (gmap string string);
  appenders : option (list string)
}.

End LoggerFactoryConfig.

(** What the storage holds under the key ['loggerfactory'], seen through
    [getItem] and [JSON.parse]; [JSON.stringify] followed by [JSON.parse] is
    taken to give the record back. *)
Inductive Item : Type :=
(** [getItem] gives [null], or the empty string, which is falsy too *)
| Absent
(** a text on which [JSON.parse] throws *)
| Malformed
| Stored (parsed : LoggerFactoryConfig.t).

(* ===================================================================== *)
(** ** [lib/logger-factory.ts] *)
(* ===================================================================== *)

Definition DEFAULT_ROOT_LEVEL : Level := INFO.

(** A JavaScript object whose property order is observed: the keys in
    insertion order.  (Keys that are array indices, which JavaScript
    enumerates first, are not used as appender names.) *)
Module Obj.

Section Obj.
Context {V : Type}.

Fixpoint set (key : string) (v : V) (o : list (string * V)) : list (string * V) :=
  match o with
  | [] => [(key, v)]
  | (k, x) :: r => if String.eqb k key then (k, v) :: r else (k, x) :: set key v r
  end.

Definition keys (o : list (string * V)) : list string := map fst o.
Definition values (o : list (string * V)) : list V := map snd o.

End Obj.

End Obj.

Module LoggerFactory.

Import JS.

(** An entry of [registeredAppenders]: an instance, or a function that
    makes one (taken to return the same appender whenever it is called). *)
Inductive Registered : Type :=
| Instance (a : Appender)
| Producer (make : unit -> Appender).

(** The address of a [Logger] in the store. *)
Definition loc : Type := nat.

Record t : Type := mk {
  storedLevels : gmap string Level;
  (** a [Map]: the entries in insertion order *)
  cachedLoggers : list (string * loc);
  theRootLevel : Level;
  (** [undefined] until first assigned *)
  appenders : option (list (string * Appender));
  (** the ['loggerfactory'] item of the store the factory was given *)
  storage : option Item;
  registeredAppenders : gmap string Registered
}.

(** The singleton factory and the [Logger] objects. *)
Record World : Type := mkWorld {
  loggers : list Logger.t;
  factory : t
}.

(** *** Calls on the world *)

Definition M (A : Type) : Type := World -> World * Completion A.

Definition ret {A} (a : A) : M A := fun w => (w, Normal a).

Definition throw {A} (e : Exn) : M A := fun w => (w, Throw e).

Definition beyond {A} : M A := fun w => (w, Beyond).

Definition bind {A B} (m : M A) (k : A -> M B) : M B :=
  fun w =>
    match m w with
    | (w', Normal a) => k a w'
    | (w', Throw e) => (w', Throw e)
    | (w', Beyond) => (w', Beyond)
    end.

Notation "'let*' x ':=' m 'in' k" := (bind m (fun x => k))
  (at level 10, x name, m at level 100, k at level 200).
Notation "m ;;; k" := (bind m (fun _ => k))
  (at level 100, k at level 200, right associativity).

(** [this.<field>] *)
Definition this {A} (field : t -> A) : M A :=
  fun w => (w, Normal (field (factory w))).

Definition assign (change : t -> t) : M unit :=
  fun w => (mkWorld (loggers w) (change (factory w)), Normal tt).

Definition with_storedLevels v (f : t) : t :=
  mk v (cachedLoggers f) (theRootLevel f) (appenders f) (storage f) (registeredAppenders f).
Definition with_cachedLoggers v (f : t) : t :=
  mk (storedLevels f) v (theRootLevel f) (appenders f) (storage f) (registeredAppenders f).
Definition with_theRootLevel v (f : t) : t :=
  mk (storedLevels f) (cachedLoggers f) v (appenders f) (storage f) (registeredAppenders f).
Definition with_appenders v (f : t) : t :=
  mk (storedLevels f) (cachedLoggers f) (theRootLevel f) v (storage f) (registeredAppenders f).
Definition with_storage v (f : t) : t :=
  mk (storedLevels f) (cachedLoggers f) (theRootLevel f) (appenders f) v (registeredAppenders f).
Definition with_registeredAppenders v (f : t) : t :=
  mk (storedLevels f) (cachedLoggers f) (theRootLevel f) (appenders f) (storage f) v.

(** A write through the reference [logger]. *)
Definition on_logger (logger : loc) (change : Logger.t -> Logger.t) (w : World) : World :=
  mkWorld (alter change logger (loggers w)) (factory w).

(** [cachedLoggers.forEach((logger, name) => body)], the body acting on a
    state [S] (the world, and the variables it captures). *)
Definition forEach {S} (body : loc -> string -> S -> S)
    (cache : list (string * loc)) (s : S) : S :=
  fold_left (fun s entry => body entry.2 entry.1 s) cache s.

(** The truthy stored level of a name, if any: [storedLevels[name]] tested
    before it is used.  The object is known by its own properties: the
    lookup is the code's for every name that [Object.prototype] has no
    member of (see [inherited]); under the name of such a member the code
    finds that member where the object has no property of its own. *)
Definition stored_level (name : string) (f : t) : option Level :=
  truthy (storedLevels f !! name).

(** [this.appenders ? Object.values(this.appenders) : []] *)
Definition appender_list (f : t) : list Appender :=
  match appenders f with
  | Some o => Obj.values o
  | None => []
  end.

(** *** The methods *)

Definition initLevels : M unit :=
  assign (fun f =>
    with_theRootLevel (default DEFAULT_ROOT_LEVEL (getValidLevel (InLevel DEFAULT_ROOT_LEVEL)))
      (with_storedLevels {[ "__root" := DEFAULT_ROOT_LEVEL ]} f)).

Definition getValidAppender (name : string) (f : t) : option Appender :=
  match registeredAppenders f !! name with
  | Some (Producer entry) => Some (entry tt)
  | Some (Instance entry) => Some entry
  | None => None
  end.

Definition registerAppender (name : string) (appender : Registered) : M unit :=
  assign (fun f => with_registeredAppenders (<[name := appender]> (registeredAppenders f)) f).

(** The [reduce] that collects the appenders which resolve; [undefined]
    when none does. *)
Definition resolve_appenders (f : t) (names : list string)
    : option (list (string * Appender)) :=
  fold_left
    (fun memo type =>
       match getValidAppender type f with
       | Some appender => Some (Obj.set type appender (default [] memo))
       | None => memo
       end)
    names None.

(** [Object.keys(this.appenders)] on an [undefined] [appenders] throws; the
    storage is then not written. *)
Definition storeConfig : M unit :=
  fun w =>
    let f := factory w in
    match storage f with
    | Some _ =>
        match appenders f with
        | Some o =>
            (mkWorld (loggers w)
               (with_storage
                  (Some (Stored (LoggerFactoryConfig.mk
                                   (Some (Level_name <$> storedLevels f))
                                   (Some (Obj.keys o)))))
                  f),
             Normal tt)
        | None => (w, Throw TypeError)
        end
    | None => (w, Normal tt)
    end.

(** The [reduce] over [Object.keys(parsed.levels)]: the entries whose level
    is valid and truthy; [undefined] when there is none.  (This is the
    code's for a stored map without the key [__proto__], under which
    [memo[name] = level] records nothing.) *)
Definition valid_levels (levels : gmap string string) : option (gmap string Level) :=
  map_fold
    (fun name s memo =>
       match truthy (getValidLevel (InString s)) with
       | Some level => Some (<[name := level]> (default ∅ memo))
       | None => memo
       end)
    None levels.

(** [parsed.levels.__root ? getValidLevel(parsed.levels.__root) : undefined] *)
Definition parsed_root (levels : option (gmap string string)) : option Level :=
  match levels with
  | Some ls =>
      match ls !! "__root" with
      | Some s => if String.eqb s EmptyString then None else getValidLevel (InString s)
      | None => None
      end
  | None => None
  end.

Definition refresh (logger : loc) (name : string) (w : World) : World :=
  let f := factory w in
  on_logger logger
    (fun l =>
       Logger.set_appenders (appender_list f)
         (Logger.set_rootLevel (theRootLevel f)
            (Logger.set_level (stored_level name f) l)))
    w.

Definition restoreConfig : M unit :=
  let* item := this (fun f => match storage f with Some i => i | None => Absent end) in
  match item with
  | Absent => ret tt
  | Malformed => initLevels
  | Stored parsed =>
      let* f := this id in
      let levels := LoggerFactoryConfig.levels parsed ≫= valid_levels in
      let rootLevel := truthy (parsed_root (LoggerFactoryConfig.levels parsed)) in
      let appenders := LoggerFactoryConfig.appenders parsed ≫= resolve_appenders f in
      match levels, rootLevel, appenders with
      | Some levels, Some rootLevel, Some appenders =>
          assign (fun f =>
            with_appenders (Some appenders)
              (with_theRootLevel rootLevel (with_storedLevels levels f)))
      | _, _, _ => initLevels
      end
  end ;;;
  fun w => (forEach refresh (cachedLoggers (factory w)) w, Normal tt).

Definition getLogger (identifier : string) : M loc :=
  let theName := if String.eqb identifier EmptyString then "default" else identifier in
  fun w =>
    let f := factory w in
    match list_find (fun entry => entry.1 = theName) (cachedLoggers f) with
    | Some (_, (_, logger)) => (w, Normal logger)
    | None =>
        let level := stored_level theName f in
        let logger := Logger.new theName (theRootLevel f) level (appender_list f) in
        let address := length (loggers w) in
        (mkWorld (loggers w ++ [logger])
           (with_cachedLoggers (cachedLoggers f ++ [(theName, address)]) f),
         Normal address)
    end.

Definition clear : M string :=
  initLevels ;;;
  (fun w =>
     (forEach
        (fun logger _ w =>
           on_logger logger
             (fun l => Logger.set_rootLevel (theRootLevel (factory w))
                         (Logger.set_level None l))
             w)
        (cachedLoggers (factory w)) w,
      Normal tt)) ;;;
  storeConfig ;;;
  assign (with_appenders (Some [])) ;;;
  let* root := this theRootLevel in
  ret ("Cleared log levels and appenders. New root level is '" +:+ Level_name root +:+ "'.").

(** The first argument of [setLogLevel]: a string, a number, or a value of
    another type, given by its rendering in a template literal. *)
Inductive Selector : Type :=
| SelString (s : string)
| SelNumber (n : Z)
| SelOther (shown : string).

(** [levels[name] = level] on a plain object, known by its own
    properties.  The name [__proto__] designates the accessor inherited from
    [Object.prototype], whose setter ignores a value that is no object: no
    property is created. *)
Definition put (name : string) (level : Level) (levels : gmap string Level)
    : gmap string Level :=
  if String.eqb name "__proto__" then levels else <[name := level]> levels.

(** The state of the sweep over the cache: the world, [matches], [index]. *)
Definition sweep (hit : string -> Z -> bool) (theLevel : Level)
    (logger : loc) (loggerName : string) (s : World * list string * Z)
    : World * list string * Z :=
  let '(w, matches, index) := s in
  if hit loggerName index
  then
    let w := on_logger logger (Logger.set_level (Some theLevel)) w in
    (mkWorld (loggers w)
       (with_storedLevels (put loggerName theLevel (storedLevels (factory w)))
          (factory w)),
     (matches ++ [loggerName])%list, index + 1)
  else (w, matches, index + 1).

(** The whole iteration; it hands back [matches]. *)
Definition sweep_all (hit : string -> Z -> bool) (theLevel : Level) : M (list string) :=
  fun w =>
    let '(w', matches, _) :=
      forEach (sweep hit theLevel) (cachedLoggers (factory w)) (w, [], 0) in
    (w', Normal matches).

Definition set_matching (nameMode : bool) (arg : string)
    (hit : string -> Z -> bool) (theLevel : Level) : M string :=
  let* matches := sweep_all hit theLevel in
  storeConfig ;;;
  ret
    (match matches, nameMode with
     | _ :: _, true =>
         "Successfully set " +:+ pretty (length matches)
         +:+ " logger(s) whose name matches /" +:+ arg +:+ "/ to level "
         +:+ Level_name theLevel +:+ ": " +:+ join "," matches
     | _ :: _, false =>
         "Successfully set logger with index " +:+ arg +:+ " to level "
         +:+ Level_name theLevel +:+ ": " +:+ join "," matches
     | [], true =>
         "No loggers matched /" +:+ arg
         +:+ "/. You might want to use a wildcard? Type 'lf.help' for help."
     | [], false =>
         "Found no logger with index " +:+ arg +:+ ". Type 'lf.ll' to view the indices."
     end).

(** For a number the expression [new RegExp('^' + arg + '$')] is evaluated
    too, but never tested; the decimal rendering of an integer is a valid
    source.  (A number is an integer here, and [`${arg}`] its decimal
    rendering, as JavaScript prints an integer of magnitude below 10^21.) *)
Definition setLogLevel (arg : Selector) (level : LevelInput) : M string :=
  match getValidLevel level with
  | None => ret EmptyString
  | Some theLevel =>
      match arg with
      | SelString s =>
          let arg := replace "*" ".*" s in
          match RegExp.new ("^" +:+ arg +:+ "$") with
          | RegExp.Pattern regexp =>
              set_matching true arg (fun loggerName _ => RegExp.test regexp loggerName) theLevel
          | RegExp.Invalid => throw SyntaxError
          | RegExp.Unsupported => beyond
          end
      | SelNumber n =>
          set_matching false (pretty n) (fun _ index => n =? index) theLevel
      | SelOther shown =>
          ret ("Unsupported argument: '" +:+ shown +:+ "'. Must be number or string.")
      end
  end.

Definition sll := setLogLevel.

Definition setLogAppenders (appenderTypes : list string) : M string :=
  let* f := this id in
  match resolve_appenders f appenderTypes with
  | Some appenders =>
      assign (with_appenders (Some appenders)) ;;;
      (fun w =>
         (forEach
            (fun logger _ w => on_logger logger (Logger.set_appenders (Obj.values appenders)) w)
            (cachedLoggers (factory w)) w,
          Normal tt)) ;;;
      storeConfig ;;;
      ret ("Appenders " +:+ quote +:+ join ", " (Obj.keys appenders) +:+ quote
           +:+ " successfully set!")
  | None =>
      ret ("No valid Appenders given: " +:+ quote +:+ join ", " appenderTypes +:+ quote +:+ "!")
  end.

Definition sla := setLogAppenders.

(** The setter of the factory's [level]: the root level. *)
Definition set_level (level : LevelInput) : M unit :=
  match getValidLevel level with
  | None => ret tt
  | Some theLevel =>
      assign (with_theRootLevel theLevel) ;;;
      (fun w =>
         (forEach (fun logger _ w => on_logger logger (Logger.set_rootLevel theLevel) w)
            (cachedLoggers (factory w)) w,
          Normal tt)) ;;;
      assign (fun f => with_storedLevels (<["__root" := theLevel]> (storedLevels f)) f) ;;;
      storeConfig
  end.

Definition level (f : t) : Level := theRootLevel f.

(** The factory as its constructor leaves it, with no logger created. *)
Definition theInstance : World :=
  mkWorld []
    (mk {[ "__root" := DEFAULT_ROOT_LEVEL ]} [] DEFAULT_ROOT_LEVEL None None ∅).

(** The [storage] argument of [init]: the Storage object that the factory
    holds already, or another one, known by the item it holds ([None]: no
    object is given). *)
Inductive StorageArg : Type :=
| Held
| Another (item : option Item).

(** [LoggerFactory.init], up to [restoreConfig]; [console] is the new
    [ConsoleAppender], [rootLevel] the truthy [config.rootLevel] if any.
    [setLogAppenders] stores into the storage held so far; the assignment
    [this.storage = storage] of the object already held leaves the factory
    with what was stored there a moment before. *)
Definition init (console : Appender) (storage : StorageArg) (rootLevel : option Level)
    : M unit :=
  registerAppender "console" (Instance console) ;;;
  setLogAppenders ["console"] ;;;
  match storage with
  | Held => ret tt
  | Another item => assign (with_storage item)
  end ;;;
  match truthy rootLevel with
  | Some l => assign (with_theRootLevel l)
  | None => ret tt
  end ;;;
  restoreConfig.

End LoggerFactory.

(* ===================================================================== *)
(** ** The local-storage appender *)
(* ===================================================================== *)

Module LocalStorageAppender.

Import JS.

(** [LOG_ENTRY_COUNT] *)
Definition LOG_ENTRY_COUNT : nat := 200.

(** A log entry: the time-stamped line, then the optional values. *)
Definition Entry : Type := list Value.

(** What the storage holds under the key ['log'], seen through [getItem]
    and [JSON.parse]. *)
Inductive Blob : Type :=
(** [getItem] gives [null] (or the text [null]) *)
| NoItem
(** a text on which [JSON.parse] throws *)
| Garbled
(** the text of an array of entries *)
| Entries (es : list Entry)
(** the text of a value that is neither [null] nor an array: a number, a
    string, a boolean, an object; all the code can tell of it is whether it
    is truthy *)
| NonArray (truthy : bool).

(** A value [JSON.parse] returns. *)
Inductive Parsed : Type :=
| Null
| Array (es : list Entry)
| Other (truthy : bool).

Definition is_truthy (v : Parsed) : bool :=
  match v with
  | Null => false
  | Array _ => true
  | Other truthy => truthy
  end.

Record t : Type := mk {
  (** [undefined] when the appender was built without a storage *)
  localStorage : option Blob;
  (** [undefined] until the first logging call; typed [any[]], it holds
      whatever was parsed *)
  logCache : option Parsed
}.

(** [JSON.parse(this.localStorage.getItem(LOCAL_STORAGE_KEY))] *)
Definition parse_stored (this : t) : Completion Parsed :=
  match localStorage this with
  | None => Throw TypeError
  | Some NoItem => Normal Null
  | Some Garbled => Throw SyntaxError
  | Some (Entries es) => Normal (Array es)
  | Some (NonArray truthy) => Normal (Other truthy)
  end.

(** [try { return ... } catch (e) { return []; }] *)
Definition getLastLog (this : t) : Completion Parsed :=
  match parse_stored this with
  | Normal parsed => Normal parsed
  | Throw _ | Beyond => Normal (Array [])
  end.

(** [now] is [new Date().toUTCString()] at the time of the call.  A cache
    that is truthy but no array has neither [shift] nor [push]: the call
    throws a [TypeError], the cache keeping that value.  (Without a storage
    the method only prints to the console.) *)
Definition logAndRotate (now : string) (obj : Value) (optionalObj : option (list Value))
    (this : t) : t * Completion unit :=
  match localStorage this with
  | Some _ =>
      let filled :=
        match parse_stored this with
        | Normal parsed => if is_truthy parsed then parsed else Array []
        | Throw _ | Beyond => Array []
        end in
      let cache :=
        match logCache this with
        | Some held => if is_truthy held then held else filled
        | None => filled
        end in
      match cache with
      | Array cache =>
          let cache :=
            if (LOG_ENTRY_COUNT <=? length cache)%nat then tail cache else cache in
          let cache :=
            (cache ++ [VString (now +:+ " " +:+ ToString obj) :: default [] optionalObj])%list in
          (mk (Some (Entries (map (map JSON_roundtrip) cache))) (Some (Array cache)),
           Normal tt)
      | Null | Other _ => (mk (localStorage this) (Some cache), Throw TypeError)
      end
  | None => (this, Normal tt)
  end.

Definition error now msg optionalParams := logAndRotate now msg (Some optionalParams).
Definition warn now msg optionalParams := logAndRotate now msg (Some optionalParams).
Definition info now msg optionalParams := logAndRotate now msg (Some optionalParams).
Definition debug now msg optionalParams := logAndRotate now msg (Some optionalParams).
Definition trace now msg optionalParams := logAndRotate now msg (Some optionalParams).
Definition dir now obj := logAndRotate now obj None.
Definition dirxml now obj := logAndRotate now obj None.
Definition group (now : string) (msg : Value) (optionalParams : list Value) (this : t)
    : t * Completion unit := (this, Normal tt).
Definition groupEnd (now : string) (this : t) : t * Completion unit := (this, Normal tt).

(** A call received from a logger, with the clock reading at that time. *)
Record Invocation : Type := mkInvocation {
  now : string;
  fn : LogFunction;
  first : Value;
  rest : list Value
}.

Definition call (c : Invocation) : t -> t * Completion unit :=
  match fn c with
  | error_ => error (now c) (first c) (rest c)
  | warn_ => warn (now c) (first c) (rest c)
  | info_ => info (now c) (first c) (rest c)
  | debug_ => debug (now c) (first c) (rest c)
  | trace_ => trace (now c) (first c) (rest c)
  | dir_ => dir (now c) (first c)
  | dirxml_ => dirxml (now c) (first c)
  | group_ => group (now c) (first c) (rest c)
  | groupEnd_ => groupEnd (now c)
  end.

(** The appender a call leaves, whether it returns or throws. *)
Definition invoke (c : Invocation) (this : t) : t := (call c this).1.

Definition run (cs : list Invocation) (this : t) : t :=
  fold_left (fun a c => invoke c a) cs this.



(** A new appender on an empty storage. *)
Definition fresh : t := mk (Some NoItem) None.

End LocalStorageAppender.
(* ===================================================================== *)
(** ** The console appender *)
(* ===================================================================== *)

(** The calls made on the [console] object. *)
Module Console.

Inductive Method : Type := error | warn | log | dir | dirxml | group | groupEnd.

Record Call : Type := mkCall {
  method : Method;
  args : list JS.Value
}.

End Console.

(** [class ConsoleAppender]: each method, as the console calls it makes. *)
Module ConsoleAppender.

Definition error (msg : JS.Value) (optionalParams : list JS.Value) : list Console.Call :=
  [Console.mkCall Console.error (msg :: optionalParams)].

Definition warn (msg : JS.Value) (optionalParams : list JS.Value) : list Console.Call :=
  [Console.mkCall Console.warn (msg :: optionalParams)].

Definition info (msg : JS.Value) (optionalParams : list JS.Value) : list Console.Call :=
  [Console.mkCall Console.log (msg :: optionalParams)].

(** [console.log.apply(console, [msg, ...optionalParams])] *)
Definition debug (msg : JS.Value) (optionalParams : list JS.Value) : list Console.Call :=
  [Console.mkCall Console.log (msg :: optionalParams)].

Definition trace (msg : JS.Value) (optionalParams : list JS.Value) : list Console.Call :=
  [Console.mkCall Console.log (msg :: optionalParams)].

Definition dir (obj : JS.Value) : list Console.Call :=
  [Console.mkCall Console.dir [obj]].

Definition dirxml (obj : JS.Value) : list Console.Call :=
  [Console.mkCall Console.dirxml [obj]].

Definition group (msg : JS.Value) (optionalParams : list JS.Value) : list Console.Call :=
  [Console.mkCall Console.group (msg :: optionalParams)].

Definition groupEnd : list Console.Call :=
  [Console.mkCall Console.groupEnd []].

(** A call [appender[logFunction](...args)] made by a logger on a console
    appender: the first parameter is bound to the first argument, or to
    [undefined] if there is none, the rest parameter to the others; [dir],
    [dirxml] and [groupEnd] declare no rest parameter and ignore them. *)
Definition receive (c : Call) : list Console.Call :=
  let msg := hd JS.VUndefined (args c) in
  let optionalParams := tl (args c) in
  match method c with
  | error_ => error msg optionalParams
  | warn_ => warn msg optionalParams
  | info_ => info msg optionalParams
  | debug_ => debug msg optionalParams
  | trace_ => trace msg optionalParams
  | dir_ => dir msg
  | dirxml_ => dirxml msg
  | group_ => group msg optionalParams
  | groupEnd_ => groupEnd
  end.

End ConsoleAppender.

(* ===================================================================== *)
(** ** [lib/logger-factory.ts]: what the factory shows *)
(* ===================================================================== *)

Module LoggerFactoryViews.

Import JS.
Import LoggerFactory.

(** [`${Level[v]}`] for a value [v] typed [Level]: [Level[null]] and
    [Level[undefined]] are [undefined]. *)
Definition Level_shown (v : option Level) : string :=
  match v with
  | Some l => Level_name l
  | None => "undefined"
  end.

(** The line [listLoggers] builds for a logger. *)
Definition line (index : Z) (logger : Logger.t) : string :=
  "    [" +:+ pretty index +:+ "]: " +:+ Logger.name logger
  +:+ " (level: " +:+ Level_shown (Logger.level logger)
  +:+ "), (root: " +:+ Level_name (Logger.rootLevel logger) +:+ ")".

(** The iteration of [listLoggers]: [result] and [index].  (An address of
    the cache always holds a logger; were it not so, the entry would give
    no line.) *)
Definition collect (w : World) (logger : loc) (value : string) (s : list string * Z)
    : list string * Z :=
  let '(result, index) := s in
  (match loggers w !! logger with
   | Some l => result ++ [line index l]
   | None => result
   end,
   index + 1).

(** [listLoggers], as the console calls it makes. *)
Definition listLoggers (w : World) : list Console.Call :=
  let result := (forEach (collect w) (cachedLoggers (factory w)) ([], 0)).1 in
  match result with
  | _ :: _ =>
      Console.mkCall Console.group [VString "Available loggers"]
      :: map (fun line => Console.mkCall Console.log [VString line]) result
      ++ [Console.mkCall Console.groupEnd []]
  | [] => [Console.mkCall Console.log [VString "Found no loggers"]]
  end.

Definition ll := listLoggers.

(** What an appender reference denotes, as far as [lastLog] can tell: an
    object with a [getLastLog] method, here a local-storage appender, or one
    without. *)
Inductive Sink : Type :=
| Plain
| Persistent (appender : LocalStorageAppender.t).

(** The string conversion [Array.prototype.join] applies to an element:
    [undefined] and [null] give the empty string. *)
Definition join_element (v : Value) : string :=
  match v with
  | VUndefined | VNull => EmptyString
  | _ => ToString v
  end.

(** The string conversion of an entry, itself an array. *)
Definition Entry_toString (e : LocalStorageAppender.Entry) : string :=
  join "," (map join_element e).

(** The line feed. *)
Definition LF : string := String (ascii_of_nat 10) EmptyString.

(** The getter [lastLog]; [objects] gives the object behind each appender
    reference.  ([getLastLog] catches what it throws, so that it always
    returns.)  A log that is truthy but no array has no [join]: the getter
    throws a [TypeError]. *)
Definition lastLog (objects : Appender -> Sink) (f : t) : Completion string :=
  let appender :=
    List.find (fun a => match objects a with Persistent _ => true | Plain => false end)
      (appender_list f) in
  let log :=
    match appender with
    | Some a =>
        match objects a with
        | Persistent p =>
            match LocalStorageAppender.getLastLog p with
            | Normal log => log
            | Throw _ | Beyond => LocalStorageAppender.Null
            end
        | Plain => LocalStorageAppender.Null
        end
    | None => LocalStorageAppender.Null
    end in
  if LocalStorageAppender.is_truthy log
  then
    match log with
    | LocalStorageAppender.Array log => Normal (join LF (map Entry_toString log))
    | LocalStorageAppender.Null | LocalStorageAppender.Other _ => Throw TypeError
    end
  else Normal "No log entry exists!".

End LoggerFactoryViews.

(* ===================================================================== *)
(** ** Notions used to state the properties *)
(* ===================================================================== *)

(** The five severity methods, their fixed level and the appender method
    they forward to. *)
Inductive Severity : Type := SevError | SevWarn | SevInfo | SevDebug | SevTrace.

Definition requiredLevel (s : Severity) : Level :=
  match s with
  | SevError => ERROR | SevWarn => WARN | SevInfo => INFO
  | SevDebug => DEBUG | SevTrace => TRACE
  end.

Definition matching_method (s : Severity) : LogFunction :=
  match s with
  | SevError => error_ | SevWarn => warn_ | SevInfo => info_
  | SevDebug => debug_ | SevTrace => trace_
  end.

Definition severity_call (s : Severity) (msg : JS.Value)
    (optionalParams : list JS.Value) (this : Logger.t) : list Call :=
  match s with
  | SevError => Logger.error msg optionalParams this
  | SevWarn => Logger.warn msg optionalParams this
  | SevInfo => Logger.info msg optionalParams this
  | SevDebug => Logger.debug msg optionalParams this
  | SevTrace => Logger.trace msg optionalParams this
  end.

(** *** The rotating buffer *)

(** The buffer: the cache, which is empty as long as nothing was logged. *)
Definition buffer (this : LocalStorageAppender.t) : list LocalStorageAppender.Entry :=
  match LocalStorageAppender.logCache this with
  | Some (LocalStorageAppender.Array cache) => cache
  | _ => []
  end.



(** The calls of the appender test: fifty rounds of seven logging calls,
    as the logger [testLogger] at level [TRACE] forwards them. *)
Definition test_rounds : list LocalStorageAppender.Invocation :=
  let logger := Logger.new "testLogger" INFO (Some TRACE) [0%nat] in
  let received (c : Call) : LocalStorageAppender.Invocation :=
    match args c with
    | v :: r =>
        LocalStorageAppender.mkInvocation "Thu, 01 Jan 1970 00:00:00 GMT" (method c) v r
    | [] =>
        LocalStorageAppender.mkInvocation "Thu, 01 Jan 1970 00:00:00 GMT" (method c)
          JS.VUndefined []
    end in
  flat_map
    (fun i : nat =>
       map received
         (Logger.error (JS.VString ("error " +:+ pretty i)) [] logger
          ++ Logger.warn (JS.VString ("warn " +:+ pretty i)) [] logger
          ++ Logger.info (JS.VString ("info " +:+ pretty i)) [] logger
          ++ Logger.debug (JS.VString ("debug " +:+ pretty i)) [] logger
          ++ Logger.trace (JS.VString ("trace " +:+ pretty i)) [] logger
          ++ Logger.dir (JS.VString ("dir " +:+ pretty i)) DEBUG logger
          ++ Logger.dirxml (JS.VString ("dirxml " +:+ pretty i)) DEBUG logger))
    (seq 1 50).

(** *** Name selectors *)

(** [s] contains no asterisk. *)
Fixpoint star_free (s : string) : bool :=
  match s with
  | EmptyString => true
  | String c r => negb (Ascii.eqb c "*") && star_free r
  end.

(** *** The factory *)

(** The world a call leaves, and what it returns. *)
Definition exec {A} (m : LoggerFactory.M A) (w : LoggerFactory.World) : LoggerFactory.World :=
  (m w).1.

Definition outcome {A} (m : LoggerFactory.M A) (w : LoggerFactory.World) : JS.Completion A :=
  (m w).2.

(** The writes [change name] made through the references of the entries
    of a cache, in order. *)
Definition alters (change : string -> Logger.t -> Logger.t)
    (cache : list (string * LoggerFactory.loc)) (ls : list Logger.t) : list Logger.t :=
  fold_left (fun ls entry => alter (change entry.1) entry.2 ls) cache ls.

(** The entries of a cache that a selector hits, [index] being the
    position of the first entry. *)
Fixpoint selected (hit : string -> Z -> bool) (cache : list (string * LoggerFactory.loc))
    (index : Z) : list (string * LoggerFactory.loc) :=
  match cache with
  | [] => []
  | entry :: rest =>
      if hit entry.1 index
      then entry :: selected hit rest (index + 1)
      else selected hit rest (index + 1)
  end.

(** No cached logger observes stale global state: each has the root level
    and the appenders of the factory. *)
Definition in_sync (w : LoggerFactory.World) : Prop :=
  forall name r logger,
    (name, r) ∈ LoggerFactory.cachedLoggers (LoggerFactory.factory w) ->
    LoggerFactory.loggers w !! r = Some logger ->
    Logger.rootLevel logger = LoggerFactory.theRootLevel (LoggerFactory.factory w)
    /\ Logger.appenders logger = LoggerFactory.appender_list (LoggerFactory.factory w).

(** [storeConfig] can complete: there is no storage to write to, or the
    appenders have been assigned. *)
Definition storable (f : LoggerFactory.t) : Prop :=
  LoggerFactory.storage f = None \/ is_Some (LoggerFactory.appenders f).

(** The record [storeConfig] writes. *)
Definition persisted (f : LoggerFactory.t) : option Item :=
  match LoggerFactory.storage f, LoggerFactory.appenders f with
  | Some _, Some o =>
      Some (Stored (LoggerFactoryConfig.mk
                      (Some (Level_name <$> LoggerFactory.storedLevels f))
                      (Some (Obj.keys o))))
  | s, _ => s
  end.

(** A page after [init] with the console appender (the object [0]) on an
    empty storage, on which the logger [app] was then obtained. *)
Definition page : LoggerFactory.World :=
  exec (LoggerFactory.getLogger "app")
    (exec (LoggerFactory.init 0%nat (LoggerFactory.Another (Some Absent)) None)
       LoggerFactory.theInstance).



(** [w'] differs from [w] at most in what the storage holds. *)
Definition same_memory (w w' : LoggerFactory.World) : Prop :=
  LoggerFactory.loggers w' = LoggerFactory.loggers w
  /\ LoggerFactory.storedLevels (LoggerFactory.factory w')
     = LoggerFactory.storedLevels (LoggerFactory.factory w)
  /\ LoggerFactory.cachedLoggers (LoggerFactory.factory w')
     = LoggerFactory.cachedLoggers (LoggerFactory.factory w)
  /\ LoggerFactory.theRootLevel (LoggerFactory.factory w')
     = LoggerFactory.theRootLevel (LoggerFactory.factory w)
  /\ LoggerFactory.appenders (LoggerFactory.factory w')
     = LoggerFactory.appenders (LoggerFactory.factory w)
  /\ LoggerFactory.registeredAppenders (LoggerFactory.factory w')
     = LoggerFactory.registeredAppenders (LoggerFactory.factory w).

(** The world [storeConfig] leaves when it completes. *)
Definition stored_world (w : LoggerFactory.World) : LoggerFactory.World :=
  LoggerFactory.mkWorld (LoggerFactory.loggers w)
    (LoggerFactory.with_storage (persisted (LoggerFactory.factory w))
       (LoggerFactory.factory w)).

(** The page on which a logger named [aXbY] was obtained as well. *)
Definition page_aXbY : LoggerFactory.World :=
  exec (LoggerFactory.getLogger "aXbY") page.

(** The record a stored item stands for: a text that does not parse gives
    neither levels nor appenders. *)
Definition config_of (item : Item) : LoggerFactoryConfig.t :=
  match item with
  | Stored parsed => parsed
  | Absent | Malformed => LoggerFactoryConfig.mk None None
  end.

(** The hard-coded defaults of [initLevels]. *)
Definition defaults (f : LoggerFactory.t) : LoggerFactory.t :=
  LoggerFactory.with_theRootLevel DEFAULT_ROOT_LEVEL
    (LoggerFactory.with_storedLevels {[ "__root" := DEFAULT_ROOT_LEVEL ]} f).

(** The factory after the first half of [restoreConfig]. *)
Definition restored (f : LoggerFactory.t) : LoggerFactory.t :=
  match LoggerFactory.storage f with
  | Some (Stored parsed) =>
      match LoggerFactoryConfig.levels parsed ≫= LoggerFactory.valid_levels,
            truthy (LoggerFactory.parsed_root (LoggerFactoryConfig.levels parsed)),
            LoggerFactoryConfig.appenders parsed ≫= LoggerFactory.resolve_appenders f
      with
      | Some levels, Some rootLevel, Some appenders =>
          LoggerFactory.with_appenders (Some appenders)
            (LoggerFactory.with_theRootLevel rootLevel
               (LoggerFactory.with_storedLevels levels f))
      | _, _, _ => defaults f
      end
  | Some Malformed => defaults f
  | Some Absent | None => f
  end.

(** What the second half of [restoreConfig] writes to a cached logger. *)
Definition refreshed (name : string) (f : LoggerFactory.t) (l : Logger.t) : Logger.t :=
  Logger.set_appenders (LoggerFactory.appender_list f)
    (Logger.set_rootLevel (LoggerFactory.theRootLevel f)
       (Logger.set_level (LoggerFactory.stored_level name f) l)).

(** The strings of a stored levels map that normalize, with their level. *)
Definition normalized (levels : gmap string string) : gmap string Level :=
  omap (fun s => getValidLevel (InString s)) levels.

(** The page when the storage holds a record whose root level is [OFF]. *)
Definition page_with_stored_OFF : LoggerFactory.World :=
  LoggerFactory.mkWorld (LoggerFactory.loggers page)
    (LoggerFactory.with_storage
       (Some (Stored (LoggerFactoryConfig.mk
                        (Some {[ "__root" := "OFF"; "app" := "DEBUG" ]})
                        (Some ["console"]))))
       (LoggerFactory.factory page)).

(* ===================================================================== *)
(** ** Further notions used to state properties *)
(* ===================================================================== *)

(** The console method a severity ends up in through the console
    appender. *)
Definition console_method (s : Severity) : Console.Method :=
  match s with
  | SevError => Console.error
  | SevWarn => Console.warn
  | SevInfo | SevDebug | SevTrace => Console.log
  end.

(** The name [getLogger] uses for an identifier. *)
Definition theName (identifier : string) : string :=
  if String.eqb identifier EmptyString then "default" else identifier.

(** *** The calls a page makes *)

(** The calls made on the singleton factory, and a write to the storage
    by someone else. *)
Inductive Op : Type :=
| Init (console : Appender) (storage : LoggerFactory.StorageArg) (rootLevel : option Level)
| RegisterAppender (name : string) (appender : LoggerFactory.Registered)
| GetLogger (identifier : string)
| SetLogLevel (arg : LoggerFactory.Selector) (level : LevelInput)
| SetLogAppenders (appenderTypes : list string)
| SetLevel (level : LevelInput)
| Clear
| RestoreConfig
| StorageChanged (item : Item).

(** A completion without its value. *)
Definition void {A} (c : JS.Completion A) : JS.Completion unit :=
  match c with
  | JS.Normal _ => JS.Normal tt
  | JS.Throw e => JS.Throw e
  | JS.Beyond => JS.Beyond
  end.

Definition call (op : Op) : LoggerFactory.M unit :=
  fun w =>
    match op with
    | Init console storage rootLevel => LoggerFactory.init console storage rootLevel w
    | RegisterAppender name appender => LoggerFactory.registerAppender name appender w
    | GetLogger identifier =>
        ((LoggerFactory.getLogger identifier w).1,
         void (LoggerFactory.getLogger identifier w).2)
    | SetLogLevel arg level =>
        ((LoggerFactory.setLogLevel arg level w).1,
         void (LoggerFactory.setLogLevel arg level w).2)
    | SetLogAppenders appenderTypes =>
        ((LoggerFactory.setLogAppenders appenderTypes w).1,
         void (LoggerFactory.setLogAppenders appenderTypes w).2)
    | SetLevel level => LoggerFactory.set_level level w
    | Clear => ((LoggerFactory.clear w).1, void (LoggerFactory.clear w).2)
    | RestoreConfig => LoggerFactory.restoreConfig w
    | StorageChanged item =>
        (match LoggerFactory.storage (LoggerFactory.factory w) with
         | Some _ =>
             LoggerFactory.mkWorld (LoggerFactory.loggers w)
               (LoggerFactory.with_storage (Some item) (LoggerFactory.factory w))
         | None => w
         end,
         JS.Normal tt)
    end.

(** The item in the storage that [init] leaves the factory with, before
    it restores: the one given with another object, or what
    [setLogAppenders] has just stored in the object held. *)
Definition init_storage (storage : LoggerFactory.StorageArg) (f : LoggerFactory.t)
    : option Item :=
  match storage with
  | LoggerFactory.Held => persisted f
  | LoggerFactory.Another item => item
  end.

(** The worlds that calls lead to from the factory as constructed. *)
Definition reachable (w : LoggerFactory.World) : Prop :=
  exists ops, w = fold_left (fun w op => exec (call op) w) ops LoggerFactory.theInstance.

(** The cache is sound: no name and no logger occurs twice in it, every
    entry holds a logger, whose name is the key of the entry, and
    [storeConfig] can complete. *)
Definition cache_sound (w : LoggerFactory.World) : Prop :=
  NoDup (LoggerFactory.cachedLoggers (LoggerFactory.factory w)).*1
  /\ NoDup (LoggerFactory.cachedLoggers (LoggerFactory.factory w)).*2
  /\ (forall name r,
        (name, r) ∈ LoggerFactory.cachedLoggers (LoggerFactory.factory w) ->
        name <> EmptyString
        /\ exists l, LoggerFactory.loggers w !! r = Some l /\ Logger.name l = name)
  /\ storable (LoggerFactory.factory w).

(** The [__root] entry of the stored overrides is the root level. *)
Definition root_entry_ok (f : LoggerFactory.t) : Prop :=
  LoggerFactory.storedLevels f !! "__root" = Some (LoggerFactory.theRootLevel f).

(** The calls that keep [root_entry_ok]: all but an [init] that is given
    a root level, and a [setLogLevel] while a logger named [__root] is
    cached. *)
Definition keeps_root_entry (op : Op) (w : LoggerFactory.World) : Prop :=
  match op with
  | Init _ _ rootLevel => truthy rootLevel = None
  | SetLogLevel _ _ =>
      "__root" ∉ (LoggerFactory.cachedLoggers (LoggerFactory.factory w)).*1
  | _ => True
  end.

(** *** Name selectors, continued *)

(** [s] is a plain name: none of its characters is a syntax character of
    regular expressions. *)
Definition plain_char (c : ascii) : bool :=
  negb (Ascii.eqb c "." || Ascii.eqb c "*" || RegExp.unsupported_char c).

Definition literal (s : string) : bool :=
  forallb plain_char (list_ascii_of_string s).

(** Two asterisks in a row. *)
Fixpoint doubled (s : list ascii) : bool :=
  match s with
  | c :: r =>
      match r with
      | d :: _ => (Ascii.eqb c "*" && Ascii.eqb d "*") || doubled r
      | [] => false
      end
  | [] => false
  end.

(** The first character is an asterisk. *)
Definition starred (s : list ascii) : bool :=
  match s with
  | c :: _ => Ascii.eqb c "*"
  | [] => false
  end.

(** No line terminator among the characters. *)
Definition one_line (s : list ascii) : bool :=
  forallb (fun c => negb (Ascii.eqb c (ascii_of_nat 10) || Ascii.eqb c (ascii_of_nat 13))) s.

(** What is left of [s] after the prefix [p], if [p] is one. *)
Fixpoint strip_prefix (p s : list ascii) : option (list ascii) :=
  match p, s with
  | [], _ => Some s
  | c :: p', d :: s' => if Ascii.eqb c d then strip_prefix p' s' else None
  | _ :: _, [] => None
  end.

(** [name] begins with [p] and goes on without a line terminator. *)
Definition begins_with (p name : string) : bool :=
  match strip_prefix (list_ascii_of_string p) (list_ascii_of_string name) with
  | Some rest => one_line rest
  | None => false
  end.

(** The entries of a cache whose name satisfies [P]. *)
Definition named (P : string -> bool) (cache : list (string * LoggerFactory.loc))
    : list (string * LoggerFactory.loc) :=
  List.filter (fun entry => P entry.1) cache.

(** The message [setLogLevel] returns for the names it matched. *)
Definition report (nameMode : bool) (arg : string) (theLevel : Level)
    (matches : list string) : string :=
  match matches, nameMode with
  | _ :: _, true =>
      "Successfully set " +:+ pretty (length matches)
      +:+ " logger(s) whose name matches /" +:+ arg +:+ "/ to level "
      +:+ Level_name theLevel +:+ ": " +:+ JS.join "," matches
  | _ :: _, false =>
      "Successfully set logger with index " +:+ arg +:+ " to level "
      +:+ Level_name theLevel +:+ ": " +:+ JS.join "," matches
  | [], true =>
      "No loggers matched /" +:+ arg
      +:+ "/. You might want to use a wildcard? Type 'lf.help' for help."
  | [], false =>
      "Found no logger with index " +:+ arg +:+ ". Type 'lf.ll' to view the indices."
  end.

(** The world in which the level [theLevel] was written to the loggers of
    the entries [sel] and recorded under their names, and then stored. *)
Definition leveled (theLevel : Level) (sel : list (string * LoggerFactory.loc))
    (w : LoggerFactory.World) : LoggerFactory.World :=
  stored_world
    (LoggerFactory.mkWorld
       (alters (fun _ => Logger.set_level (Some theLevel)) sel (LoggerFactory.loggers w))
       (LoggerFactory.with_storedLevels
          (fold_left (fun m (entry : string * LoggerFactory.loc) =>
                LoggerFactory.put entry.1 theLevel m)
             sel (LoggerFactory.storedLevels (LoggerFactory.factory w)))
          (LoggerFactory.factory w))).

(** *** The local-storage appender, continued *)


(** What a logging call returns or throws. *)
Definition result (c : LocalStorageAppender.Invocation) (this : LocalStorageAppender.t)
    : JS.Completion unit :=
  (LocalStorageAppender.call c this).2.


(** *** What the factory shows *)

(** The lines of [listLoggers]. *)
Definition lines (w : LoggerFactory.World) : list string :=
  (LoggerFactory.forEach (LoggerFactoryViews.collect w)
     (LoggerFactory.cachedLoggers (LoggerFactory.factory w)) ([], 0)).1.

(** The lines for the entries of a cache, the first having the index
    [index]. *)
Fixpoint lines_from (w : LoggerFactory.World) (cache : list (string * LoggerFactory.loc))
    (index : Z) : list string :=
  match cache with
  | [] => []
  | (_, r) :: rest =>
      match LoggerFactory.loggers w !! r with
      | Some l => [LoggerFactoryViews.line index l]
      | None => []
      end
      ++ lines_from w rest (index + 1)
  end.

(** The name under which the address [r] occurs last in a cache. *)
Definition last_name (cache : list (string * LoggerFactory.loc)) (r : LoggerFactory.loc)
    : option string :=
  fold_left (fun found (entry : string * LoggerFactory.loc) =>
               if decide (entry.2 = r) then Some entry.1 else found)
    cache None.

(* ===================================================================== *)
(** * Properties *)
(* ===================================================================== *)

(** ** Levels *)

Lemma Level_of_name_inv s l : Level_of_name s = Some l -> s = Level_name l.
Proof.
  unfold Level_of_name.
  repeat match goal with
         | |- context [String.eqb s ?x] =>
             destruct (String.eqb_spec s x) as [->|_]; [intros [= <-]; reflexivity|]
         end.
  discriminate.
Qed.

Lemma Level_name_not_numeric l : JS.isNaN_of_string (Level_name l) = true.
Proof. destruct l; vm_compute; reflexivity. Qed.

Lemma getValidLevel_string s : getValidLevel (InString s) = Level_of_name s.
Proof.
  simpl. destruct (JS.isNaN_of_string s) eqn:E; [reflexivity|].
  destruct (Level_of_name s) as [l|] eqn:El; [|reflexivity].
  apply Level_of_name_inv in El. subst s.
  rewrite Level_name_not_numeric in E. discriminate.
Qed.

Lemma getValidLevel_number n : getValidLevel (InNumber n) = Level_of_code n.
Proof. simpl. destruct (Level_of_code n); reflexivity. Qed.

Lemma Level_of_code_range n :
  Level_of_code n = if (0 <=? n) && (n <=? 5) then Level_of_code n else None.
Proof.
  destruct n as [|p|p]; try reflexivity.
  do 3 (destruct p; try reflexivity).
Qed.

(** C5: [getValidLevel] takes the name and the code of each level to that
    level, whose code is the number given; it gives [null] for a string that
    is no level name (["bogus"], the numeric string ["100"]), for a number
    outside 0..5 (such as 100), for [null] and for [undefined]; being a
    total function it never throws. *)
Theorem getValidLevel_round_trip :
  (forall l : Level,
      getValidLevel (InString (Level_name l)) = Some l
      /\ getValidLevel (InNumber (Level_code l)) = Some l
      /\ Level_code <$> getValidLevel (InString (Level_name l)) = Some (Level_code l))
  /\ (forall s : string,
        getValidLevel (InString s)
        = if bool_decide (s ∈ map Level_name [OFF; ERROR; WARN; INFO; DEBUG; TRACE])
          then Level_of_name s else None)
  /\ (forall n : Z,
        getValidLevel (InNumber n)
        = if (0 <=? n) && (n <=? 5) then Level_of_code n else None)
  /\ getValidLevel (InString "bogus") = None
  /\ getValidLevel (InNumber 100) = None
  /\ getValidLevel (InString "100") = None
  /\ getValidLevel InNull = None
  /\ getValidLevel InUndefined = None.
Proof.
  split; [|split; [|split]].
  - intros l. destruct l; vm_compute; auto.
  - intros s. rewrite getValidLevel_string. case_bool_decide as H; [reflexivity|].
    destruct (Level_of_name s) as [l|] eqn:E; [|reflexivity].
    apply Level_of_name_inv in E. subst s. exfalso. apply H.
    destruct l; simpl; set_solver.
  - intros n. rewrite getValidLevel_number. apply Level_of_code_range.
  - repeat split; vm_compute; reflexivity.
Qed.

(** ** Loggers *)

Lemma effectiveLevel_set_level v this :
  Logger.effectiveLevel (Logger.set_level v this)
  = default (Logger.rootLevel this) (truthy v).
Proof. unfold Logger.set_level, Logger.calculateEffectiveLevel. simpl. destruct (truthy v); reflexivity. Qed.

Lemma effectiveLevel_set_rootLevel r this :
  Logger.effectiveLevel (Logger.set_rootLevel r this)
  = default r (truthy (Logger.level this)).
Proof. unfold Logger.set_rootLevel, Logger.calculateEffectiveLevel. simpl. destruct (truthy _); reflexivity. Qed.

(** After a write to either level the effective level is the local level
    when one other than [OFF] is present, and the root level otherwise. *)
Lemma effectiveLevel_after_write this :
  (forall v, v <> Some OFF ->
     Logger.effectiveLevel (Logger.set_level v this) = default (Logger.rootLevel this) v)
  /\ (forall r, Logger.level this <> Some OFF ->
     Logger.effectiveLevel (Logger.set_rootLevel r this) = default r (Logger.level this)).
Proof.
  split.
  - intros v Hv. rewrite effectiveLevel_set_level. destruct v as [[]|]; simpl; congruence.
  - intros r Hv. rewrite effectiveLevel_set_rootLevel. unfold Logger.level in *.
    destruct (Logger.theLevel this) as [[]|]; simpl; congruence.
Qed.

(** C1: a logger whose root level is [INFO] and whose local level is set
    to [OFF] has the effective level [INFO], not [OFF]: the local level
    [OFF] is taken for an absent one, and the logger still lets messages of
    the levels [ERROR] to [INFO] through. *)
Theorem local_OFF_is_not_effective :
  let logger := Logger.set_level (Some OFF) (Logger.new "app" INFO None [7%nat]) in
  Logger.level logger = Some OFF
  /\ Logger.rootLevel logger = INFO
  /\ Logger.effectiveLevel logger = INFO
  /\ Logger.effectiveLevel logger <> OFF
  /\ Logger.error (JS.VString "still logged") [] logger
     = [mkCall 7%nat error_ [JS.VString "[ERROR] - app: still logged"]].
Proof. vm_compute. repeat split; congruence. Qed.

Lemma severity_call_log s msg optionalParams this :
  severity_call s msg optionalParams this
  = Logger.log (requiredLevel s) (matching_method s) msg (Some optionalParams) true this.
Proof. destruct s; reflexivity. Qed.

(** The same through the factory: [setLogLevel] accepts the level [OFF]
    for the logger [app], stores it and reports success, and the logger goes
    on logging at the root level. *)
Lemma setLogLevel_OFF_reports_success :
  let call := LoggerFactory.setLogLevel (LoggerFactory.SelString "app") (InString "OFF") in
  outcome call page
  = JS.Normal "Successfully set 1 logger(s) whose name matches /app/ to level OFF: app"
  /\ LoggerFactory.storedLevels (LoggerFactory.factory (exec call page)) !! "app" = Some OFF
  /\ (Logger.level <$> LoggerFactory.loggers (exec call page) !! 0%nat) = Some (Some OFF)
  /\ (Logger.effectiveLevel <$> LoggerFactory.loggers (exec call page) !! 0%nat) = Some INFO.
Proof. vm_compute. repeat split; reflexivity. Qed.

(** C2: a severity call whose level is at most the effective level calls
    the matching method of every appender once, in the order of the list,
    with the formatted line followed by the optional parameters as given;
    a severity call whose level exceeds the effective level calls nothing. *)
Theorem severity_call_fan_out (s : Severity) (msg : JS.Value)
    (optionalParams : list JS.Value) (this : Logger.t) :
  (Level_code (requiredLevel s) <= Level_code (Logger.effectiveLevel this) ->
     severity_call s msg optionalParams this
     = map (fun appender =>
              mkCall appender (matching_method s)
                (JS.VString ("[" +:+ Level_name (requiredLevel s) +:+ "] - "
                             +:+ Logger.name this +:+ ": " +:+ JS.ToString msg)
                 :: optionalParams))
           (Logger.appenders this))
  /\ (Level_code (requiredLevel s) > Level_code (Logger.effectiveLevel this) ->
     severity_call s msg optionalParams this = []).
Proof.
  rewrite severity_call_log. unfold Logger.log, Logger.shouldLog, Logger.formatLogMessage.
  split; intros H.
  - rewrite (proj2 (Z.leb_le _ _) H). reflexivity.
  - rewrite (proj2 (Z.leb_gt _ _)) by lia. reflexivity.
Qed.

Lemma severity_call_fan_out_witness :
  severity_call SevWarn (JS.VString "disk low") [JS.VNumber 3; JS.VObject 1]
    (Logger.new "disk" INFO None [4%nat; 2%nat; 4%nat])
  = [ mkCall 4%nat warn_ [JS.VString "[WARN] - disk: disk low"; JS.VNumber 3; JS.VObject 1];
      mkCall 2%nat warn_ [JS.VString "[WARN] - disk: disk low"; JS.VNumber 3; JS.VObject 1];
      mkCall 4%nat warn_ [JS.VString "[WARN] - disk: disk low"; JS.VNumber 3; JS.VObject 1] ]
  /\ severity_call SevDebug (JS.VString "noise") [] (Logger.new "disk" INFO None [4%nat]) = [].
Proof.
  split.
  - apply (proj1 (severity_call_fan_out SevWarn (JS.VString "disk low")
                    [JS.VNumber 3; JS.VObject 1] (Logger.new "disk" INFO None [4%nat; 2%nat; 4%nat]))).
    vm_compute. discriminate.
  - apply (proj2 (severity_call_fan_out SevDebug (JS.VString "noise") []
                    (Logger.new "disk" INFO None [4%nat]))).
    vm_compute. reflexivity.
Defined.

(** ** The rotating buffer of the local-storage appender *)

Section Rotation.

Import LocalStorageAppender.













(** The first entry kept after the test rounds is the fourth call of round
    22. *)
Lemma test_rounds_first_kept :
  buffer (run test_rounds fresh) !! 0%nat
  = Some [JS.VString "Thu, 01 Jan 1970 00:00:00 GMT [DEBUG] - testLogger: debug 22"].
Proof. vm_compute. reflexivity. Qed.

(** C9: [getLastLog] never throws and never consults the cache: it returns
    the entries parsed from the storage; the empty list when the stored text
    does not parse or the appender has no storage; and [null], not an empty
    list, when nothing is stored.  (A stored value that is neither [null]
    nor an array is returned as it is.) *)
Theorem getLastLog_reads_the_storage (this : t) :
  (forall cache, getLastLog (mk (localStorage this) cache) = getLastLog this)
  /\ getLastLog this
     = JS.Normal
         (match localStorage this with
          | Some (Entries es) => Array es
          | Some NoItem => Null
          | Some (NonArray truthy) => Other truthy
          | Some Garbled | None => Array []
          end).
Proof.
  split; [reflexivity|].
  unfold getLastLog, parse_stored. destruct (localStorage this) as [[]|]; reflexivity.
Qed.

(** With nothing stored [getLastLog] returns [null], not an empty list. *)
Lemma getLastLog_absent_is_null :
  getLastLog fresh = JS.Normal Null
  /\ getLastLog fresh <> JS.Normal (Array []).
Proof. split; [reflexivity | discriminate]. Qed.

(** The cache and the storage may differ; [getLastLog] follows the
    storage. *)
Lemma getLastLog_ignores_cache :
  getLastLog (mk (Some (Entries [])) (Some (Array [[JS.VString "cached"]])))
  = JS.Normal (Array []).
Proof. reflexivity. Qed.

End Rotation.

(** ** Wildcards in a name selector *)

Lemma substring_all s n : (String.length s <= n)%nat -> substring 0 n s = s.
Proof.
  revert n. induction s as [|c s IH]; intros n H; destruct n; simpl in *; try reflexivity; try lia.
  rewrite IH by lia. reflexivity.
Qed.

Lemma replace_here pat by_ s :
  String.prefix pat s = true ->
  JS.replace pat by_ s = by_ +:+ substring (String.length pat) (String.length s) s.
Proof. destruct s; cbn [JS.replace]; intros ->; reflexivity. Qed.

Lemma replace_skip pat by_ c s :
  String.prefix pat (String c s) = false ->
  JS.replace pat by_ (String c s) = String c (JS.replace pat by_ s).
Proof. cbn [JS.replace]. intros ->. reflexivity. Qed.

Lemma replace_first_star pre post :
  star_free pre = true ->
  JS.replace "*" ".*" (pre +:+ "*" +:+ post) = pre +:+ ".*" +:+ post.
Proof.
  induction pre as [|c pre IH]; intros H.
  - change (EmptyString +:+ "*" +:+ post) with (String "*" post).
    rewrite replace_here by (destruct post; reflexivity).
    change (substring (String.length "*") (String.length (String "*" post)) (String "*" post))
      with (substring 0 (S (String.length post)) post).
    rewrite substring_all by lia. reflexivity.
  - simpl in H. apply andb_prop in H as [Hc Hpre].
    destruct (Ascii.eqb_spec c "*") as [->|Hne]; [discriminate|].
    change ((String c pre) +:+ "*" +:+ post) with (String c (pre +:+ "*" +:+ post)).
    rewrite replace_skip.
    + rewrite IH by exact Hpre. reflexivity.
    + cbn [String.prefix]. destruct (ascii_dec "*" c) as [<-|_]; [congruence|reflexivity].
Qed.

Lemma parse_quantified c r :
  c <> "*"%char ->
  RegExp.parse (c :: "*"%char :: r) = cons (RegExp.Star (RegExp.atom_of c)) <$> RegExp.parse r.
Proof.
  intros Hc. cbn [RegExp.parse].
  destruct (Ascii.eqb_spec c "*"); [contradiction|]. reflexivity.
Qed.

(** ** The factory: iteration over the cache *)

Section Factory.

Import LoggerFactory.

Lemma factory_eta (f : t) :
  mk (storedLevels f) (cachedLoggers f) (theRootLevel f) (appenders f) (storage f)
     (registeredAppenders f) = f.
Proof. destruct f; reflexivity. Qed.

Lemma world_eta (w : World) : mkWorld (loggers w) (factory w) = w.
Proof. destruct w; reflexivity. Qed.

Lemma forEach_on_logger (g : string -> t -> Logger.t -> Logger.t) cache w :
  forEach (fun logger name w => on_logger logger (g name (factory w)) w) cache w
  = mkWorld (alters (fun name => g name (factory w)) cache (loggers w)) (factory w).
Proof.
  revert w. induction cache as [|[name r] cache IH]; intros w.
  - symmetry. apply world_eta.
  - unfold forEach, alters in *. cbn [fold_left]. rewrite IH. reflexivity.
Qed.

Lemma alters_lookup_notin change cache ls (r : loc) :
  r ∉ cache.*2 -> alters change cache ls !! r = ls !! r.
Proof.
  revert ls. induction cache as [|[name r0] cache IH]; intros ls Hr; [reflexivity|].
  rewrite fmap_cons, not_elem_of_cons in Hr. destruct Hr as [Hne Hr].
  unfold alters in *. cbn [fold_left]. rewrite IH by exact Hr.
  apply list_lookup_alter_ne. cbn in *. congruence.
Qed.


(** A property that every write establishes holds of every cached logger
    afterwards. *)
Lemma alters_lookup_all (P : Logger.t -> Prop) change cache ls :
  (forall name l, P (change name l)) ->
  forall name (r : loc) l', (name, r) ∈ cache -> alters change cache ls !! r = Some l' -> P l'.
Proof.
  intros HP. revert ls. induction cache as [|[name0 r0] cache IH]; intros ls name r l' Hin Hl.
  - inversion Hin.
  - change (alters change ((name0, r0) :: cache) ls)
      with (alters change cache (alter (change name0) r0 ls)) in Hl.
    destruct (decide (r ∈ cache.*2)) as [Hr|Hr].
    + apply list_elem_of_fmap in Hr as ([name' r'] & -> & Hin').
      exact (IH _ _ _ _ Hin' Hl).
    + apply elem_of_cons in Hin as [[= -> ->]|Hin].
      * rewrite alters_lookup_notin in Hl by exact Hr.
        rewrite list_lookup_alter_eq in Hl.
        apply fmap_Some in Hl as (l & _ & ->). apply HP.
      * exfalso. apply Hr. apply (list_elem_of_fmap_2 snd _ _ Hin).
Qed.

(** ** [storeConfig] *)

Lemma storeConfig_storable w :
  storable (factory w) -> storeConfig w = (stored_world w, JS.Normal tt).
Proof.
  unfold storable, storeConfig, stored_world, persisted.
  destruct w as [ls [sl cl rl ap st ra]]. cbn.
  intros [->|[o ->]]; [reflexivity|]. destruct st; reflexivity.
Qed.

Lemma storeConfig_memory w : same_memory w (exec storeConfig w).
Proof.
  unfold exec, storeConfig.
  destruct (storage (factory w)); [destruct (appenders (factory w))|];
    repeat split; reflexivity.
Qed.


(** ** [setLogLevel] *)

Lemma sweep_forEach hit lvl cache w ms i :
  forEach (sweep hit lvl) cache (w, ms, i)
  = (mkWorld
       (alters (fun _ => Logger.set_level (Some lvl)) (selected hit cache i) (loggers w))
       (with_storedLevels
          (fold_left (fun m entry => put entry.1 lvl m) (selected hit cache i)
             (storedLevels (factory w)))
          (factory w)),
     ms ++ (selected hit cache i).*1,
     i + Z.of_nat (length cache)).
Proof.
  revert w ms i. induction cache as [|[name r] cache IH]; intros w ms i.
  - cbn. unfold with_storedLevels. rewrite factory_eta, world_eta, app_nil_r, Z.add_0_r.
    reflexivity.
  - unfold forEach in *. cbn [fold_left selected fst snd]. unfold sweep at 2.
    cbn [fst snd]. destruct (hit name i).
    + rewrite IH. cbn [loggers factory on_logger storedLevels with_storedLevels
                       cachedLoggers theRootLevel appenders storage registeredAppenders].
      rewrite <- app_assoc.
      replace (i + 1 + Z.of_nat (length cache)) with (i + Z.of_nat (length ((name, r) :: cache)))
        by (cbn [length]; lia).
      reflexivity.
    + rewrite IH.
      replace (i + 1 + Z.of_nat (length cache)) with (i + Z.of_nat (length ((name, r) :: cache)))
        by (cbn [length]; lia).
      reflexivity.
Qed.


Lemma selected_index n (cache : list (string * loc)) i :
  selected (fun _ index => n =? index) cache i
  = match (if i <=? n then cache !! Z.to_nat (n - i) else None) with
    | Some entry => [entry]
    | None => []
    end.
Proof.
  revert i. induction cache as [|entry cache IH]; intros i.
  - cbn. destruct (i <=? n); reflexivity.
  - cbn [selected]. rewrite IH.
    destruct (Z.eqb_spec n i) as [->|Hne].
    + rewrite Z.leb_refl, Z.sub_diag. cbn.
      destruct (Z.leb_spec (i + 1) i); [lia|reflexivity].
    + destruct (Z.leb_spec i n) as [Hle|Hgt].
      * destruct (Z.leb_spec (i + 1) n); [|lia].
        replace (Z.to_nat (n - i)) with (S (Z.to_nat (n - (i + 1)))) by lia.
        reflexivity.
      * destruct (Z.leb_spec (i + 1) n); [lia|reflexivity].
Qed.

Lemma set_matching_spec nameMode arg hit lvl w :
  let sel := selected hit (cachedLoggers (factory w)) 0 in
  let swept :=
    mkWorld (alters (fun _ => Logger.set_level (Some lvl)) sel (loggers w))
      (with_storedLevels
         (fold_left (fun m entry => put entry.1 lvl m) sel (storedLevels (factory w)))
         (factory w)) in
  exists message,
    set_matching nameMode arg hit lvl w
    = match storeConfig swept with
      | (w', JS.Normal _) => (w', JS.Normal message)
      | (w', JS.Throw e) => (w', JS.Throw e)
      | (w', JS.Beyond) => (w', JS.Beyond)
      end
    /\ (sel = [] ->
        message
        = if nameMode
          then "No loggers matched /" +:+ arg
               +:+ "/. You might want to use a wildcard? Type 'lf.help' for help."
          else "Found no logger with index " +:+ arg
               +:+ ". Type 'lf.ll' to view the indices.").
Proof.
  intros sel swept.
  unfold set_matching, bind, sweep_all. rewrite sweep_forEach. fold sel. fold swept.
  eexists. split.
  - unfold bind. destruct (storeConfig swept) as [w' [[]| |]]; reflexivity.
  - intros ->. cbn. destruct nameMode; reflexivity.
Qed.

End Factory.

Section SetLogLevel.

Import LoggerFactory.






End SetLogLevel.

(** ** [restoreConfig] *)

Section Restore.

Import LoggerFactory.


Lemma truthy_id v : v <> Some OFF -> truthy v = v.
Proof. intros H. destruct v as [[]|]; simpl; congruence. Qed.

Lemma valid_levels_spec (levels : gmap string string) :
  (valid_levels levels = None
   /\ omap (fun s => truthy (getValidLevel (InString s))) levels = ∅)
  \/ (valid_levels levels = Some (omap (fun s => truthy (getValidLevel (InString s))) levels)
      /\ omap (fun s => truthy (getValidLevel (InString s))) levels ≠ ∅).
Proof.
  unfold valid_levels.
  apply (map_fold_weak_ind
           (fun (memo : option (gmap string Level)) (m : gmap string string) =>
              (memo = None
               /\ omap (fun s => truthy (getValidLevel (InString s))) m = ∅)
              \/ (memo = Some (omap (fun s => truthy (getValidLevel (InString s))) m)
                  /\ omap (fun s => truthy (getValidLevel (InString s))) m ≠ ∅))).
  - left. split; [reflexivity | apply omap_empty].
  - intros name s m memo Hfresh IH.
    assert (default ∅ memo = omap (fun s => truthy (getValidLevel (InString s))) m) as Hd.
    { destruct IH as [[-> ->]|[-> _]]; reflexivity. }
    destruct (truthy (getValidLevel (InString s))) as [level|] eqn:El.
    + right. rewrite Hd,
        (omap_insert_Some (fun s => truthy (getValidLevel (InString s))) m name s level El).
      split; [reflexivity | apply insert_non_empty].
    + rewrite (omap_insert_None (fun s => truthy (getValidLevel (InString s))) m name s El),
        delete_id; [exact IH|].
      rewrite lookup_omap, Hfresh. reflexivity.
Qed.



Lemma restored_fields f :
  cachedLoggers (restored f) = cachedLoggers f.
Proof. unfold restored. repeat case_match; reflexivity. Qed.

Lemma restoreConfig_spec w :
  restoreConfig w
  = (mkWorld
       (alters (fun name => refreshed name (restored (factory w)))
          (cachedLoggers (factory w)) (loggers w))
       (restored (factory w)),
     JS.Normal tt).
Proof.
  assert (forall w', factory w' = restored (factory w) -> loggers w' = loggers w ->
            (forEach refresh (cachedLoggers (factory w)) w', JS.Normal tt)
            = (mkWorld
                 (alters (fun name => refreshed name (restored (factory w)))
                    (cachedLoggers (factory w)) (loggers w))
                 (restored (factory w)),
               JS.Normal tt)) as Hrefresh.
  { intros w' Hf Hl.
    change (forEach refresh) with
      (forEach (fun logger name w => on_logger logger (refreshed name (factory w)) w)).
    rewrite forEach_on_logger, Hf, Hl. reflexivity. }
  unfold restoreConfig, bind, this.
  destruct (storage (factory w)) as [[| |parsed]|] eqn:Hs.
  - cbn. apply Hrefresh; [|reflexivity]. unfold restored. rewrite Hs. reflexivity.
  - cbn. apply Hrefresh; [|reflexivity]. unfold restored. rewrite Hs. reflexivity.
  - cbn [ret id]. unfold bind.
    destruct (LoggerFactoryConfig.levels parsed ≫= valid_levels) as [ls|] eqn:E1;
      [destruct (truthy (parsed_root (LoggerFactoryConfig.levels parsed))) as [root|] eqn:E2;
       [destruct (LoggerFactoryConfig.appenders parsed ≫= resolve_appenders (factory w))
          as [aps|] eqn:E3|]|];
      cbn; apply Hrefresh; try reflexivity;
      unfold restored; rewrite Hs, E1, ?E2, ?E3; reflexivity.
  - cbn. apply Hrefresh; [|reflexivity]. unfold restored. rewrite Hs. reflexivity.
Qed.

End Restore.

Section RestoreAdoption.

Import LoggerFactory.









(** A stored root level [OFF] is taken for a missing one: the record is
    discarded although all its strings normalize. *)
Lemma restore_stored_OFF_is_discarded :
  let w' := exec restoreConfig page_with_stored_OFF in
  normalized {[ "__root" := "OFF"; "app" := "DEBUG" ]} !! "__root" = Some OFF
  /\ storedLevels (factory w') = {[ "__root" := DEFAULT_ROOT_LEVEL ]}
  /\ theRootLevel (factory w') = DEFAULT_ROOT_LEVEL.
Proof. vm_compute. repeat split; reflexivity. Qed.

(** Without a stored item nothing is reset: a root level taken from the
    configuration survives [restoreConfig]. *)
Lemma restore_without_item_resets_nothing :
  theRootLevel (factory (exec (init 0%nat (Another (Some Absent)) (Some DEBUG)) theInstance))
  = DEBUG.
Proof. reflexivity. Qed.

End RestoreAdoption.

(** ** [clear], and what the cached loggers observe *)

Section Sync.

Import LoggerFactory.

Lemma alters_lookup_inv (I P : Logger.t -> Prop) change cache ls :
  (forall name l, I l -> I (change name l) /\ P (change name l)) ->
  (forall name (r : loc) l, (name, r) ∈ cache -> ls !! r = Some l -> I l) ->
  forall name (r : loc) l', (name, r) ∈ cache -> alters change cache ls !! r = Some l' -> P l'.
Proof.
  intros Hstep. revert ls.
  induction cache as [|[name0 r0] cache IH]; intros ls HI name r l' Hin Hl.
  - inversion Hin.
  - change (alters change ((name0, r0) :: cache) ls)
      with (alters change cache (alter (change name0) r0 ls)) in Hl.
    assert (forall name (r : loc) l,
               (name, r) ∈ cache -> alter (change name0) r0 ls !! r = Some l -> I l) as HI'.
    { intros name' r' l Hin' Hl'. destruct (decide (r0 = r')) as [<-|Hne].
      - rewrite list_lookup_alter_eq in Hl'. apply fmap_Some in Hl' as (l0 & Hl0 & ->).
        apply Hstep. apply (HI name0 r0); [left|exact Hl0].
      - rewrite list_lookup_alter_ne in Hl' by exact Hne.
        apply (HI name' r'); [right; exact Hin'|exact Hl']. }
    destruct (decide (r ∈ cache.*2)) as [Hr|Hr].
    + apply list_elem_of_fmap in Hr as ([name' r'] & -> & Hin').
      exact (IH _ HI' _ _ _ Hin' Hl).
    + apply elem_of_cons in Hin as [[= -> ->]|Hin].
      * rewrite alters_lookup_notin in Hl by exact Hr.
        rewrite list_lookup_alter_eq in Hl. apply fmap_Some in Hl as (l0 & Hl0 & ->).
        apply Hstep. apply (HI name0 r0); [left|exact Hl0].
      * exfalso. apply Hr. apply (list_elem_of_fmap_2 snd _ _ Hin).
Qed.

Lemma alters_preserves (P : Logger.t -> Prop) change cache ls (r : loc) l' :
  (forall name l, P l -> P (change name l)) ->
  alters change cache ls !! r = Some l' ->
  exists l, ls !! r = Some l /\ (P l -> P l').
Proof.
  intros Hstep. revert ls. induction cache as [|[name0 r0] cache IH]; intros ls Hl.
  - exists l'. split; [exact Hl|tauto].
  - change (alters change ((name0, r0) :: cache) ls)
      with (alters change cache (alter (change name0) r0 ls)) in Hl.
    destruct (IH _ Hl) as (l1 & Hl1 & HP).
    destruct (decide (r0 = r)) as [<-|Hne].
    + rewrite list_lookup_alter_eq in Hl1. apply fmap_Some in Hl1 as (l0 & Hl0 & ->).
      exists l0. split; [exact Hl0|]. intros H0. apply HP, Hstep, H0.
    + rewrite list_lookup_alter_ne in Hl1 by exact Hne. exists l1. split; assumption.
Qed.

Lemma in_sync_same_memory w w' : same_memory w w' -> in_sync w -> in_sync w'.
Proof.
  intros (Hl & _ & Hc & Hr & Ha & _) H name r logger Hin Hlook.
  unfold appender_list. rewrite Hc in Hin. rewrite Hl in Hlook. rewrite Hr, Ha.
  exact (H name r logger Hin Hlook).
Qed.

Lemma exec_then_storeConfig {A} (w : World) (k : M A) :
  (forall w', k w' = (w', (k w').2)) ->
  same_memory w (exec (storeConfig ;;; k) w).
Proof.
  intros Hk. unfold exec, bind. pose proof (storeConfig_memory w) as Hm. unfold exec in Hm.
  destruct (storeConfig w) as [w' [[]| |]]; cbn in *; try exact Hm.
  rewrite Hk. exact Hm.
Qed.

(** [restoreConfig] brings every cached logger in line with the factory. *)
Lemma restoreConfig_in_sync w : in_sync (exec restoreConfig w).
Proof.
  unfold exec. rewrite restoreConfig_spec. cbn [fst]. intros name r logger Hin Hl.
  cbn [factory loggers] in *. rewrite restored_fields in Hin.
  refine (alters_lookup_all
            (fun l => Logger.rootLevel l = theRootLevel (restored (factory w))
                      /\ Logger.appenders l = appender_list (restored (factory w)))
            _ _ _ _ name r logger Hin Hl).
  intros name' l. split; reflexivity.
Qed.

(** [setLogAppenders], the setter of the root level, [setLogLevel] and
    [getLogger] keep the cached loggers in line with the factory. *)
Lemma setLogAppenders_in_sync w appenderTypes :
  in_sync w -> in_sync (exec (setLogAppenders appenderTypes) w).
Proof.
  intros H. unfold setLogAppenders, exec, bind at 1, this. cbn [id].
  destruct (resolve_appenders (factory w) appenderTypes) as [aps|]; [|exact H].
  unfold bind at 1, assign. unfold bind at 1.
  change (forEach (fun logger _ w => on_logger logger (Logger.set_appenders (Obj.values aps)) w))
    with (forEach (fun logger name w =>
                     on_logger logger
                       ((fun _ _ => Logger.set_appenders (Obj.values aps)) name (factory w)) w)).
  rewrite forEach_on_logger. cbn [loggers factory cachedLoggers with_appenders].
  set (w1 := mkWorld _ _).
  refine (in_sync_same_memory w1 _ (exec_then_storeConfig w1 _ (fun _ => eq_refl)) _).
  subst w1. intros name r logger Hin Hl. cbn [loggers factory cachedLoggers with_appenders
    theRootLevel appender_list appenders] in *.
  refine (alters_lookup_inv
            (fun l => Logger.rootLevel l = theRootLevel (factory w))
            (fun l => Logger.rootLevel l = theRootLevel (factory w)
                      /\ Logger.appenders l = Obj.values aps)
            _ _ _ _ _ name r logger Hin Hl).
  - intros name' l Hroot. repeat split; exact Hroot.
  - intros name' r' l Hin' Hl'. exact (proj1 (H name' r' l Hin' Hl')).
Qed.

Lemma set_level_in_sync w level :
  in_sync w -> in_sync (exec (LoggerFactory.set_level level) w).
Proof.
  intros H. unfold LoggerFactory.set_level, exec.
  destruct (getValidLevel level) as [theLevel|]; [|exact H].
  unfold bind at 1, assign. unfold bind at 1.
  change (forEach (fun logger _ w => on_logger logger (Logger.set_rootLevel theLevel) w))
    with (forEach (fun logger name w =>
                     on_logger logger
                       ((fun _ _ => Logger.set_rootLevel theLevel) name (factory w)) w)).
  rewrite forEach_on_logger. cbn [loggers factory cachedLoggers with_theRootLevel].
  unfold bind at 1. cbn [loggers factory].
  set (w1 := mkWorld _ _).
  assert (same_memory w1 (storeConfig w1).1) as Hm by apply storeConfig_memory.
  refine (in_sync_same_memory w1 _ Hm _).
  subst w1. intros name r logger Hin Hl. cbn [loggers factory cachedLoggers with_theRootLevel
    with_storedLevels theRootLevel appender_list appenders] in *.
  refine (alters_lookup_inv
            (fun l => Logger.appenders l = appender_list (factory w))
            (fun l => Logger.rootLevel l = theLevel
                      /\ Logger.appenders l = appender_list (factory w))
            _ _ _ _ _ name r logger Hin Hl).
  - intros name' l Happ. repeat split; exact Happ.
  - intros name' r' l Hin' Hl'. exact (proj2 (H name' r' l Hin' Hl')).
Qed.

Lemma set_matching_in_sync nameMode arg hit lvl w :
  in_sync w -> in_sync (exec (set_matching nameMode arg hit lvl) w).
Proof.
  intros H. unfold exec.
  destruct (set_matching_spec nameMode arg hit lvl w) as (message & -> & _).
  set (swept := mkWorld _ _).
  assert (in_sync swept) as Hswept.
  { subst swept. intros name r logger Hin Hl. cbn [loggers factory cachedLoggers
      with_storedLevels theRootLevel appender_list appenders] in *.
    destruct (alters_preserves
                (fun l => Logger.rootLevel l = theRootLevel (factory w)
                          /\ Logger.appenders l = appender_list (factory w))
                (fun _ => Logger.set_level (Some lvl)) _ _ _ _ (fun _ l Hp => Hp) Hl)
      as (l & Hl0 & HP).
    apply HP. exact (H name r l Hin Hl0). }
  pose proof (storeConfig_memory swept) as Hm. unfold exec in Hm.
  destruct (storeConfig swept) as [w' [[]| |]]; exact (in_sync_same_memory _ _ Hm Hswept).
Qed.

Lemma setLogLevel_in_sync w arg level :
  in_sync w -> in_sync (exec (setLogLevel arg level) w).
Proof.
  intros H. unfold setLogLevel.
  destruct (getValidLevel level) as [theLevel|]; [|exact H].
  destruct arg as [s|n|shown]; [|apply set_matching_in_sync, H|exact H].
  destruct (RegExp.new _); [apply set_matching_in_sync, H|exact H|exact H].
Qed.

Lemma getLogger_in_sync w identifier :
  in_sync w -> in_sync (exec (getLogger identifier) w).
Proof.
  intros H. unfold getLogger, exec.
  destruct (list_find _ _) as [[i [n r]]|]; [exact H|].
  cbn [fst]. intros name r logger Hin Hl.
  cbn [loggers factory cachedLoggers with_cachedLoggers theRootLevel appender_list
       appenders] in *.
  destruct (decide (r < length (loggers w))%nat) as [Hlt|Hge].
  - rewrite lookup_app_l in Hl by exact Hlt.
    apply elem_of_app in Hin as [Hin|Hin%list_elem_of_singleton].
    + exact (H name r logger Hin Hl).
    + injection Hin as -> ->. lia.
  - assert (r = length (loggers w) /\ logger = Logger.new
              (if String.eqb identifier EmptyString then "default" else identifier)
              (theRootLevel (factory w))
              (stored_level (if String.eqb identifier EmptyString then "default" else identifier)
                 (factory w))
              (appender_list (factory w))) as [-> ->].
    { apply lookup_snoc_Some in Hl as [[Hlt _]|[-> <-]]; [lia|]. split; reflexivity. }
    split; reflexivity.
Qed.

(** C4: on the page, where the cached logger is in line with the factory,
    [clear] returns its message having emptied the factory's appenders, while
    the cached logger keeps the console appender: it is no longer in line
    with the factory. *)
Theorem clear_leaves_the_loggers_their_appenders :
  in_sync page
  /\ outcome clear page
     = JS.Normal "Cleared log levels and appenders. New root level is 'INFO'."
  /\ appender_list (factory (exec clear page)) = []
  /\ cachedLoggers (factory (exec clear page)) = [("app", 0%nat)]
  /\ (Logger.appenders <$> loggers (exec clear page) !! 0%nat) = Some [0%nat]
  /\ ~ in_sync (exec clear page).
Proof.
  split; [|split; [|split; [|split; [|split]]]]; try (vm_compute; reflexivity).
  - apply (getLogger_in_sync _ "app"). unfold init.
    apply restoreConfig_in_sync.
  - intros H.
    destruct (H "app" 0%nat (Logger.mk "app" INFO None INFO [0%nat])) as [_ Happ].
    + vm_compute. left.
    + vm_compute. reflexivity.
    + vm_compute in Happ. discriminate Happ.
Qed.

End Sync.

Section Clear.

Import LoggerFactory.

Lemma clear_spec w :
  storable (factory w) ->
  clear w
  = (mkWorld
       (alters (fun _ l => Logger.set_rootLevel DEFAULT_ROOT_LEVEL (Logger.set_level None l))
          (cachedLoggers (factory w)) (loggers w))
       (with_appenders (Some [])
          (with_storage (persisted (defaults (factory w))) (defaults (factory w)))),
     JS.Normal "Cleared log levels and appenders. New root level is 'INFO'.").
Proof.
  intros Hst. unfold clear. unfold bind at 1, initLevels, assign. unfold bind at 1.
  change (forEach
            (fun logger _ w =>
               on_logger logger
                 (fun l => Logger.set_rootLevel (theRootLevel (factory w))
                             (Logger.set_level None l)) w))
    with (forEach
            (fun logger name w =>
               on_logger logger
                 ((fun _ f l => Logger.set_rootLevel (theRootLevel f) (Logger.set_level None l))
                    name (factory w)) w)).
  rewrite forEach_on_logger. cbn [loggers factory cachedLoggers with_theRootLevel
    with_storedLevels theRootLevel].
  unfold bind at 1.
  rewrite storeConfig_storable
    by (destruct Hst as [Hs|Ha]; [left; exact Hs | right; exact Ha]).
  reflexivity.
Qed.

(** What [clear] does achieve: the stored overrides and the root level
    are the defaults, the factory has no active appender, the cache keeps
    its entries, so that a cached name still yields the same logger, and
    every cached logger has no level of its own and the default root
    level. *)
Lemma clear_resets w :
  storable (factory w) ->
  let w' := exec clear w in
  storedLevels (factory w') = {[ "__root" := DEFAULT_ROOT_LEVEL ]}
  /\ theRootLevel (factory w') = DEFAULT_ROOT_LEVEL
  /\ appenders (factory w') = Some []
  /\ cachedLoggers (factory w') = cachedLoggers (factory w)
  /\ storage (factory w') = persisted (defaults (factory w))
  /\ (forall name r logger,
        (name, r) ∈ cachedLoggers (factory w) -> loggers w' !! r = Some logger ->
        Logger.level logger = None
        /\ Logger.rootLevel logger = DEFAULT_ROOT_LEVEL
        /\ Logger.effectiveLevel logger = DEFAULT_ROOT_LEVEL)
  /\ (forall identifier i entry,
        list_find
          (fun entry : string * loc =>
             entry.1 = if String.eqb identifier EmptyString then "default" else identifier)
          (cachedLoggers (factory w)) = Some (i, entry) ->
        getLogger identifier w = (w, JS.Normal entry.2)
        /\ getLogger identifier w' = (w', JS.Normal entry.2)).
Proof.
  intros Hst w'. subst w'. unfold exec. rewrite (clear_spec w Hst). cbn [fst].
  split; [reflexivity|]. split; [reflexivity|]. split; [reflexivity|].
  split; [reflexivity|]. split; [reflexivity|]. split.
  - intros name r logger Hin Hl.
    refine (alters_lookup_all
              (fun l => Logger.level l = None
                        /\ Logger.rootLevel l = DEFAULT_ROOT_LEVEL
                        /\ Logger.effectiveLevel l = DEFAULT_ROOT_LEVEL)
              _ _ _ _ name r logger Hin Hl).
    intros name' l. repeat split.
  - intros identifier i [name r] Hfind. unfold getLogger.
    cbn [factory cachedLoggers with_appenders with_storage defaults
         with_theRootLevel with_storedLevels].
    rewrite Hfind. split; reflexivity.
Qed.

(** C6: on the page, [clear] writes the record to the storage before it
    empties the active appenders: the factory is left with no appender, and
    the record with the levels [{__root: INFO}] and the appender [console]. *)
Theorem clear_persists_the_appenders_it_drops :
  appenders (factory page) = Some [("console", 0%nat)]
  /\ appenders (factory (exec clear page)) = Some []
  /\ storage (factory (exec clear page))
     = Some (Stored (LoggerFactoryConfig.mk (Some {[ "__root" := "INFO" ]})
                       (Some ["console"])))
  /\ (storage (factory (exec clear page)) ≫= fun item =>
        LoggerFactoryConfig.appenders (config_of item)) <> Some [].
Proof. vm_compute. repeat split; try reflexivity. discriminate. Qed.

End Clear.

(* ===================================================================== *)
(** * Further properties *)
(* ===================================================================== *)

(** ** Loggers: guards, raw calls, the console *)

Lemma shouldLog_spec level this :
  Logger.shouldLog level this = true
  <-> Level_code level <= Level_code (Logger.effectiveLevel this).
Proof. unfold Logger.shouldLog. apply Z.leb_le. Qed.

(** X1: once a local level other than [OFF] is written, the guards and the
    severity calls follow it alone: a severity is enabled exactly when its
    level is at most the local level, whatever the root level is and
    whatever is written to the root level afterwards.  Once the local level
    is written back to [null], they follow the root level, also the one
    written afterwards.  Guards are downward closed, and a severity call
    reaches no appender exactly when its guard is false or there is no
    appender. *)
Theorem guards_follow_the_local_level (this : Logger.t) :
  (forall l r x,
      l <> OFF ->
      Logger.shouldLog x (Logger.set_level (Some l) this)
      = (Level_code x <=? Level_code l)
      /\ Logger.shouldLog x (Logger.set_rootLevel r (Logger.set_level (Some l) this))
         = (Level_code x <=? Level_code l))
  /\ (forall r x,
        Logger.shouldLog x (Logger.set_level None this)
        = (Level_code x <=? Level_code (Logger.rootLevel this))
        /\ Logger.shouldLog x (Logger.set_rootLevel r (Logger.set_level None this))
           = (Level_code x <=? Level_code r))
  /\ (forall a b,
        Level_code a <= Level_code b ->
        Logger.shouldLog b this = true -> Logger.shouldLog a this = true)
  /\ (forall s msg optionalParams,
        severity_call s msg optionalParams this = []
        <-> Logger.shouldLog (requiredLevel s) this = false \/ Logger.appenders this = []).
Proof.
  split; [|split; [|split]].
  - intros l r x Hl. unfold Logger.shouldLog.
    rewrite effectiveLevel_set_rootLevel, effectiveLevel_set_level.
    destruct l; try contradiction; split; reflexivity.
  - intros r x. unfold Logger.shouldLog.
    rewrite effectiveLevel_set_rootLevel, effectiveLevel_set_level. split; reflexivity.
  - intros a b Hab Hb. apply shouldLog_spec. apply shouldLog_spec in Hb. lia.
  - intros s msg optionalParams. rewrite severity_call_log. unfold Logger.log.
    destruct (Logger.shouldLog (requiredLevel s) this).
    + destruct (Logger.appenders this); cbn; split; intros H; try discriminate H.
      * right. reflexivity.
      * reflexivity.
      * destruct H as [H|H]; discriminate H.
    + split; [left|]; reflexivity.
Qed.

Lemma guards_follow_the_local_level_witness :
  Logger.shouldLog TRACE (Logger.set_level (Some WARN) (Logger.new "net" TRACE None []))
  = (Level_code TRACE <=? Level_code WARN)
  /\ Logger.isDebugEnabled (Logger.new "net" INFO (Some TRACE) []) = true.
Proof.
  split.
  - apply (proj1 (proj1 (guards_follow_the_local_level (Logger.new "net" TRACE None []))
                   WARN INFO TRACE ltac:(discriminate))).
  - apply (proj1 (proj2 (proj2 (guards_follow_the_local_level
                                  (Logger.new "net" INFO (Some TRACE) []))))
             DEBUG TRACE).
    + vm_compute. discriminate.
    + reflexivity.
Defined.

(** X2: [dir] and [dirxml] hand every appender the object itself and
    nothing else; called at the level [OFF] they are never suppressed,
    whatever the levels of the logger.  [group] and [groupEnd] are gated at
    [DEBUG]; [groupEnd], which has no message, hands every appender the line
    formatted from [undefined]. *)
Theorem raw_and_group_calls (this : Logger.t) :
  (forall obj,
      Logger.dir obj OFF this = map (fun a => mkCall a dir_ [obj]) (Logger.appenders this)
      /\ Logger.dirxml obj OFF this
         = map (fun a => mkCall a dirxml_ [obj]) (Logger.appenders this))
  /\ (forall obj level,
        Logger.shouldLog level this = true ->
        Logger.dir obj level this = map (fun a => mkCall a dir_ [obj]) (Logger.appenders this)
        /\ Logger.dirxml obj level this
           = map (fun a => mkCall a dirxml_ [obj]) (Logger.appenders this))
  /\ (Logger.isDebugEnabled this = false ->
      (forall msg optionalParams, Logger.group msg optionalParams this = [])
      /\ Logger.groupEnd this = [])
  /\ (Logger.isDebugEnabled this = true ->
      Logger.groupEnd this
      = map (fun a =>
               mkCall a groupEnd_
                 [JS.VString ("[DEBUG] - " +:+ Logger.name this +:+ ": undefined")])
          (Logger.appenders this)).
Proof.
  assert (Logger.shouldLog OFF this = true) as Hoff.
  { apply shouldLog_spec. destruct (Logger.effectiveLevel this); cbn; lia. }
  split; [|split; [|split]].
  - intros obj. unfold Logger.dir, Logger.dirxml, Logger.log. rewrite Hoff.
    split; reflexivity.
  - intros obj level H. unfold Logger.dir, Logger.dirxml, Logger.log. rewrite H.
    split; reflexivity.
  - unfold Logger.isDebugEnabled, Logger.group, Logger.groupEnd, Logger.log.
    intros ->. split; reflexivity.
  - unfold Logger.isDebugEnabled, Logger.groupEnd, Logger.log.
    intros ->. reflexivity.
Qed.

Lemma raw_and_group_calls_witness :
  Logger.dir (JS.VObject 3) DEBUG (Logger.new "ui" TRACE None [0%nat; 1%nat])
  = [mkCall 0%nat dir_ [JS.VObject 3]; mkCall 1%nat dir_ [JS.VObject 3]]
  /\ Logger.groupEnd (Logger.new "ui" INFO None [0%nat]) = []
  /\ Logger.groupEnd (Logger.new "ui" TRACE None [0%nat])
     = [mkCall 0%nat groupEnd_ [JS.VString "[DEBUG] - ui: undefined"]].
Proof.
  split; [|split].
  - apply (proj1 (proj1 (proj2 (raw_and_group_calls (Logger.new "ui" TRACE None [0%nat; 1%nat])))
                   (JS.VObject 3) DEBUG eq_refl)).
  - apply (proj2 (proj1 (proj2 (proj2 (raw_and_group_calls (Logger.new "ui" INFO None [0%nat]))))
                   eq_refl)).
  - apply (proj2 (proj2 (proj2 (raw_and_group_calls (Logger.new "ui" TRACE None [0%nat]))))
             eq_refl).
Defined.

(** X3: through console appenders, a severity call that passes makes one
    console call for each appender: [console.error] for [error],
    [console.warn] for [warn] and [console.log] for [info], [debug] and
    [trace] alike, with the formatted line followed by the optional
    parameters; a passing [groupEnd] makes a [console.groupEnd] call without
    arguments, the line the logger formatted being dropped. *)
Theorem console_receives (this : Logger.t) :
  (forall s msg optionalParams,
      Logger.shouldLog (requiredLevel s) this = true ->
      flat_map ConsoleAppender.receive (severity_call s msg optionalParams this)
      = map (fun _ =>
               Console.mkCall (console_method s)
                 (JS.VString (Logger.formatLogMessage (requiredLevel s) msg this)
                  :: optionalParams))
          (Logger.appenders this))
  /\ (Logger.isDebugEnabled this = true ->
      flat_map ConsoleAppender.receive (Logger.groupEnd this)
      = map (fun _ => Console.mkCall Console.groupEnd []) (Logger.appenders this)).
Proof.
  split.
  - intros s msg optionalParams H. rewrite severity_call_log. unfold Logger.log. rewrite H.
    induction (Logger.appenders this) as [|a l IH]; [reflexivity|].
    cbn [map flat_map]. rewrite IH. destruct s; reflexivity.
  - unfold Logger.isDebugEnabled, Logger.groupEnd, Logger.log. intros ->.
    induction (Logger.appenders this) as [|a l IH]; [reflexivity|].
    cbn [map flat_map]. rewrite IH. reflexivity.
Qed.

Lemma console_receives_witness :
  flat_map ConsoleAppender.receive
    (severity_call SevTrace (JS.VString "Bogus") [JS.VObject 1; JS.VObject 2]
       (Logger.new "testLogger" INFO (Some TRACE) [0%nat]))
  = [Console.mkCall Console.log
       [JS.VString "[TRACE] - testLogger: Bogus"; JS.VObject 1; JS.VObject 2]]
  /\ flat_map ConsoleAppender.receive
       (Logger.groupEnd (Logger.new "testLogger" INFO (Some TRACE) [0%nat]))
     = [Console.mkCall Console.groupEnd []].
Proof.
  split.
  - apply (proj1 (console_receives (Logger.new "testLogger" INFO (Some TRACE) [0%nat]))
             SevTrace (JS.VString "Bogus") [JS.VObject 1; JS.VObject 2] eq_refl).
  - apply (proj2 (console_receives (Logger.new "testLogger" INFO (Some TRACE) [0%nat])) eq_refl).
Defined.

(** ** The factory: [getLogger] *)

Section GetLogger.

Import LoggerFactory.

Lemma getLogger_find identifier w :
  getLogger identifier w
  = match list_find (fun entry : string * loc => entry.1 = theName identifier)
            (cachedLoggers (factory w)) with
    | Some (_, (_, logger)) => (w, JS.Normal logger)
    | None =>
        (mkWorld
           (loggers w
            ++ [Logger.new (theName identifier) (theRootLevel (factory w))
                  (stored_level (theName identifier) (factory w))
                  (appender_list (factory w))])
           (with_cachedLoggers
              (cachedLoggers (factory w) ++ [(theName identifier, length (loggers w))])
              (factory w)),
         JS.Normal (length (loggers w)))
    end.
Proof. reflexivity. Qed.

Lemma find_name_None name (cache : list (string * loc)) :
  list_find (fun entry : string * loc => entry.1 = name) cache = None
  <-> name ∉ cache.*1.
Proof.
  rewrite list_find_None, Forall_forall. split.
  - intros H Hin. apply list_elem_of_fmap in Hin as ([n r] & -> & Hin).
    exact (H _ Hin eq_refl).
  - intros H [n r] Hin Heq. cbn in Heq. subst n. apply H.
    apply (list_elem_of_fmap_2 fst _ _ Hin).
Qed.

Lemma getLogger_creates w identifier :
  theName identifier ∉ (cachedLoggers (factory w)).*1 ->
  loggers (exec (getLogger identifier) w) !! length (loggers w)
  = Some (Logger.new (theName identifier) (theRootLevel (factory w))
            (truthy (storedLevels (factory w) !! theName identifier))
            (appender_list (factory w))).
Proof.
  intros Hnot. apply find_name_None in Hnot. unfold exec.
  rewrite getLogger_find, Hnot. cbn [fst loggers]. apply list_lookup_middle. reflexivity.
Qed.

(** X4: [getLogger] always returns a logger, and asking again for the
    same identifier returns that same logger and changes nothing; the empty
    identifier stands for [default].  It never writes to the storage nor
    touches the levels, the appenders or a logger that exists.  For a name
    that is not cached it creates one logger, at the end of the cache, with
    that name and the root level and the appenders of the factory; if the
    name is no property name of [Object.prototype], the logger has the
    stored level of that name if there is one other than [OFF], and no level
    of its own otherwise.  For a cached name the world is left as it is. *)
Theorem getLogger_caches (w : World) (identifier : string) :
  let call := getLogger identifier in
  (exists logger,
      outcome call w = JS.Normal logger
      /\ call (exec call w) = (exec call w, JS.Normal logger))
  /\ getLogger EmptyString w = getLogger "default" w
  /\ (storedLevels (factory (exec call w)) = storedLevels (factory w)
      /\ theRootLevel (factory (exec call w)) = theRootLevel (factory w)
      /\ appenders (factory (exec call w)) = appenders (factory w)
      /\ storage (factory (exec call w)) = storage (factory w)
      /\ registeredAppenders (factory (exec call w)) = registeredAppenders (factory w))
  /\ (forall r l, loggers w !! r = Some l -> loggers (exec call w) !! r = Some l)
  /\ (theName identifier ∉ (cachedLoggers (factory w)).*1 ->
      outcome call w = JS.Normal (length (loggers w))
      /\ cachedLoggers (factory (exec call w))
         = cachedLoggers (factory w) ++ [(theName identifier, length (loggers w))]
      /\ (exists logger,
            loggers (exec call w) !! length (loggers w) = Some logger
            /\ Logger.name logger = theName identifier
            /\ Logger.rootLevel logger = theRootLevel (factory w)
            /\ Logger.appenders logger = appender_list (factory w))
      /\ (JS.inherited (theName identifier) = false ->
          loggers (exec call w) !! length (loggers w)
          = Some (Logger.new (theName identifier) (theRootLevel (factory w))
                    (truthy (storedLevels (factory w) !! theName identifier))
                    (appender_list (factory w)))))
  /\ (theName identifier ∈ (cachedLoggers (factory w)).*1 -> exec call w = w).
Proof.
  intros call. subst call. unfold exec, outcome. rewrite getLogger_find.
  destruct (list_find _ (cachedLoggers (factory w))) as [[i [n r]]|] eqn:Hfind.
  - cbn [fst snd]. split; [|split; [|split; [|split; [|split]]]].
    + exists r. split; [reflexivity|]. rewrite getLogger_find, Hfind. reflexivity.
    + reflexivity.
    + repeat split.
    + auto.
    + intros Hnot. apply find_name_None in Hnot. rewrite Hnot in Hfind. discriminate Hfind.
    + reflexivity.
  - cbn [fst snd]. split; [|split; [|split; [|split; [|split]]]].
    + exists (length (loggers w)). split; [reflexivity|].
      rewrite getLogger_find. cbn [factory cachedLoggers with_cachedLoggers].
      rewrite (list_find_app_r _ _ _ Hfind). cbn.
      rewrite decide_True by reflexivity. cbn.
      apply find_name_None in Hfind.
      replace (0 + length (cachedLoggers (factory w)))%nat
        with (length (cachedLoggers (factory w))) by lia.
      reflexivity.
    + reflexivity.
    + repeat split.
    + intros r l Hl. apply lookup_app_l_Some. exact Hl.
    + intros _. split; [reflexivity|]. split; [reflexivity|]. split.
      * eexists. split; [cbn [loggers]; apply list_lookup_middle; reflexivity|].
        split; [reflexivity|]. split; reflexivity.
      * intros _. cbn [loggers]. apply list_lookup_middle. reflexivity.
    + intros Hin. apply find_name_None in Hfind. contradiction.
Qed.

Lemma getLogger_caches_witness :
  (outcome (getLogger "net") page = JS.Normal 1%nat
   /\ loggers (exec (getLogger "net") page) !! length (loggers page)
      = Some (Logger.new (theName "net") (theRootLevel (factory page))
                (truthy (storedLevels (factory page) !! theName "net"))
                (appender_list (factory page))))
  /\ exec (getLogger "app") page = page.
Proof.
  split.
  - assert (theName "net" ∉ (cachedLoggers (factory page)).*1) as Hnew.
    { vm_compute. intros H. apply list_elem_of_singleton in H. discriminate H. }
    destruct (proj1 (proj2 (proj2 (proj2 (proj2 (getLogger_caches page "net"))))) Hnew)
      as (Hout & _ & _ & Hmade).
    split; [exact Hout|]. apply Hmade. reflexivity.
  - apply (proj2 (proj2 (proj2 (proj2 (proj2 (getLogger_caches page "app")))))).
    vm_compute. left.
Defined.

End GetLogger.

(** ** The factory: appenders and the root level *)

Section Appenders.

Import LoggerFactory.

Lemma alters_const (g : Logger.t -> Logger.t) cache ls (r : loc) :
  (forall l, g (g l) = g l) ->
  alters (fun _ => g) cache ls !! r
  = if decide (r ∈ cache.*2) then g <$> ls !! r else ls !! r.
Proof.
  intros Hg. revert ls. induction cache as [|[name0 r0] cache IH]; intros ls.
  - cbn. rewrite decide_False by apply not_elem_of_nil. reflexivity.
  - change (alters (fun _ => g) ((name0, r0) :: cache) ls)
      with (alters (fun _ => g) cache (alter g r0 ls)).
    rewrite IH, fmap_cons. cbn [snd].
    destruct (decide (r = r0)) as [->|Hne].
    + rewrite list_lookup_alter_eq. rewrite (decide_True (P := r0 ∈ r0 :: cache.*2)) by left.
      destruct (decide (r0 ∈ cache.*2)); [|reflexivity].
      rewrite <- option_fmap_compose. apply option_fmap_ext. exact Hg.
    + rewrite list_lookup_alter_ne by congruence.
      destruct (decide (r ∈ cache.*2)) as [Hin|Hnin].
      * rewrite decide_True by (right; exact Hin). reflexivity.
      * rewrite decide_False; [reflexivity|].
        intros [?|?]%elem_of_cons; contradiction.
Qed.





Lemma setLogAppenders_spec w appenderTypes aps :
  resolve_appenders (factory w) appenderTypes = Some aps ->
  setLogAppenders appenderTypes w
  = (stored_world
       (mkWorld
          (alters (fun _ => Logger.set_appenders (Obj.values aps))
             (cachedLoggers (factory w)) (loggers w))
          (with_appenders (Some aps) (factory w))),
     JS.Normal ("Appenders " +:+ JS.quote +:+ JS.join ", " (Obj.keys aps) +:+ JS.quote
                +:+ " successfully set!")).
Proof.
  intros Hres. unfold setLogAppenders, bind at 1, this. cbn [id]. rewrite Hres.
  unfold bind at 1, assign. unfold bind at 1.
  change (forEach (fun logger _ w => on_logger logger (Logger.set_appenders (Obj.values aps)) w))
    with (forEach (fun logger name w =>
                     on_logger logger
                       ((fun _ _ => Logger.set_appenders (Obj.values aps)) name (factory w)) w)).
  rewrite forEach_on_logger. cbn [loggers factory cachedLoggers with_appenders].
  unfold bind at 1. rewrite storeConfig_storable by (right; eexists; reflexivity).
  reflexivity.
Qed.



End Appenders.

Section RootLevel.

Import LoggerFactory.

Lemma set_level_spec w level theLevel :
  getValidLevel level = Some theLevel ->
  storable (factory w) ->
  LoggerFactory.set_level level w
  = (stored_world
       (mkWorld
          (alters (fun _ => Logger.set_rootLevel theLevel) (cachedLoggers (factory w))
             (loggers w))
          (with_storedLevels (<["__root" := theLevel]> (storedLevels (factory w)))
             (with_theRootLevel theLevel (factory w)))),
     JS.Normal tt).
Proof.
  intros Hv Hst. unfold LoggerFactory.set_level. rewrite Hv.
  unfold bind at 1, assign. unfold bind at 1.
  change (forEach (fun logger _ w => on_logger logger (Logger.set_rootLevel theLevel) w))
    with (forEach (fun logger name w =>
                     on_logger logger
                       ((fun _ _ => Logger.set_rootLevel theLevel) name (factory w)) w)).
  rewrite forEach_on_logger. cbn [loggers factory cachedLoggers with_theRootLevel].
  unfold bind at 1. cbn [loggers factory].
  rewrite storeConfig_storable
    by (destruct Hst as [Hs|Ha]; [left; exact Hs | right; exact Ha]).
  reflexivity.
Qed.

(** X6: assigning the root level of the factory.  A value that does not
    normalize changes nothing.  A level that does becomes the root level of
    the factory, the [__root] entry of the stored overrides and the root
    level of every cached logger; the other stored overrides, the appenders,
    the cache and the local level of every logger are untouched, so a logger
    with a local level other than [OFF] keeps its effective level and every
    other cached logger takes the new root level; the storage, if there is
    one, holds the record of the new state. *)
Theorem root_level_assignment (w : World) (level : LevelInput) :
  (getValidLevel level = None -> LoggerFactory.set_level level w = (w, JS.Normal tt))
  /\ (forall theLevel,
        getValidLevel level = Some theLevel ->
        storable (factory w) ->
        let w' := exec (LoggerFactory.set_level level) w in
        outcome (LoggerFactory.set_level level) w = JS.Normal tt
        /\ theRootLevel (factory w') = theLevel
        /\ storedLevels (factory w') = <["__root" := theLevel]> (storedLevels (factory w))
        /\ appenders (factory w') = appenders (factory w)
        /\ cachedLoggers (factory w') = cachedLoggers (factory w)
        /\ (forall r l', loggers w' !! r = Some l' ->
              exists l, loggers w !! r = Some l
                        /\ l' = (if decide (r ∈ (cachedLoggers (factory w)).*2)
                                 then Logger.set_rootLevel theLevel l else l))
        /\ (forall name r l',
              (name, r) ∈ cachedLoggers (factory w) -> loggers w' !! r = Some l' ->
              Logger.rootLevel l' = theLevel
              /\ Logger.effectiveLevel l' = default theLevel (truthy (Logger.level l'))
              /\ exists l, loggers w !! r = Some l
                           /\ Logger.level l' = Logger.level l
                           /\ Logger.appenders l' = Logger.appenders l
                           /\ Logger.name l' = Logger.name l)
        /\ storage (factory w')
           = (storage (factory w) ≫= fun _ =>
                persisted (with_storedLevels
                             (<["__root" := theLevel]> (storedLevels (factory w)))
                             (factory w)))).
Proof.
  split.
  - intros H. unfold LoggerFactory.set_level. rewrite H. reflexivity.
  - intros theLevel Hv Hst w'. subst w'. unfold exec, outcome.
    rewrite (set_level_spec w level theLevel Hv Hst). cbn [fst snd].
    assert (forall r l',
               alters (fun _ => Logger.set_rootLevel theLevel) (cachedLoggers (factory w))
                 (loggers w) !! r = Some l' ->
               exists l, loggers w !! r = Some l
                         /\ l' = (if decide (r ∈ (cachedLoggers (factory w)).*2)
                                  then Logger.set_rootLevel theLevel l else l)) as Hlog.
    { intros r l' Hl'. rewrite alters_const in Hl' by reflexivity.
      destruct (decide (r ∈ (cachedLoggers (factory w)).*2)) as [Hd|Hd].
      - rewrite decide_True in Hl' by exact Hd.
        apply fmap_Some in Hl' as (l & Hl & ->). exists l. split; [exact Hl|reflexivity].
      - rewrite decide_False in Hl' by exact Hd.
        exists l'. split; [exact Hl'|reflexivity]. }
    split; [reflexivity|]. split; [reflexivity|]. split; [reflexivity|].
    split; [reflexivity|]. split; [reflexivity|]. split; [exact Hlog|]. split.
    + intros name r l' Hin Hl'. destruct (Hlog r l' Hl') as (l & Hl & ->).
      rewrite decide_True by (apply (list_elem_of_fmap_2 snd _ _ Hin)).
      split; [reflexivity|]. split.
      * rewrite effectiveLevel_set_rootLevel. reflexivity.
      * exists l. repeat split. exact Hl.
    + unfold stored_world, persisted. cbn [factory storage appenders with_storage
        with_theRootLevel with_storedLevels storedLevels].
      destruct (storage (factory w)); reflexivity.
Qed.

Lemma root_level_assignment_witness :
  LoggerFactory.set_level (InString "5") page = (page, JS.Normal tt)
  /\ theRootLevel (factory (exec (LoggerFactory.set_level (InString "TRACE")) page)) = TRACE
  /\ storedLevels (factory (exec (LoggerFactory.set_level (InString "TRACE")) page))
     = <["__root" := TRACE]> (storedLevels (factory page)).
Proof.
  split.
  - apply (proj1 (root_level_assignment page (InString "5"))). reflexivity.
  - destruct (proj2 (root_level_assignment page (InString "TRACE")) TRACE)
      as (_ & H1 & H2 & _).
    + reflexivity.
    + right. eexists. reflexivity.
    + split; [exact H1|exact H2].
Defined.

End RootLevel.

(** ** The factory: what survives a store and a restore *)

Section RoundTrip.

Import LoggerFactory.

Lemma getValidLevel_name l : getValidLevel (InString (Level_name l)) = Some l.
Proof. destruct l; reflexivity. Qed.

Lemma Obj_set_fresh {V} key (v : V) (o : list (string * V)) :
  key ∉ Obj.keys o -> Obj.set key v o = o ++ [(key, v)].
Proof.
  induction o as [|[k x] o IH]; intros Hk; [reflexivity|].
  cbn [Obj.keys map fst] in Hk. apply not_elem_of_cons in Hk as [Hne Hk].
  cbn [Obj.set]. destruct (String.eqb_spec k key) as [->|_]; [contradiction|].
  rewrite IH by exact Hk. reflexivity.
Qed.

Lemma resolve_appenders_keys (f : t) (o : list (string * Appender)) :
  NoDup (Obj.keys o) ->
  (forall k a, (k, a) ∈ o -> getValidAppender k f = Some a) ->
  resolve_appenders f (Obj.keys o) = match o with [] => None | _ => Some o end.
Proof.
  unfold resolve_appenders. induction o as [|[k a] o IH] using rev_ind; intros Hnd Hreg.
  - reflexivity.
  - unfold Obj.keys in *. rewrite map_app in *. cbn [map fst] in *.
    apply NoDup_app in Hnd as (Hnd & Hfresh & _).
    rewrite fold_left_app. cbn [fold_left].
    rewrite IH; [|exact Hnd|intros k' a' Hin; apply Hreg, elem_of_app; left; exact Hin].
    rewrite (Hreg k a) by (apply elem_of_app; right; left).
    assert (default [] (match o with [] => None | _ => Some o end) = o) as -> by (destruct o; reflexivity).
    rewrite Obj_set_fresh.
    + destruct (o ++ [(k, a)]) eqn:E; [|reflexivity].
      apply app_eq_nil in E as [_ E]. discriminate E.
    + intros Hin. apply (Hfresh k Hin). left.
Qed.

Lemma no_OFF_level_listed (levels : gmap string Level) :
  bool_decide (OFF ∉ (map_to_list levels).*2) = true ->
  forall name, levels !! name <> Some OFF.
Proof.
  intros Hb%bool_decide_eq_true name H. apply Hb.
  apply elem_of_map_to_list in H. apply (list_elem_of_fmap_2 snd _ _ H).
Qed.

(** X7: what is stored is restored.  When the factory has a storage, the
    stored overrides hold no level [OFF] and their [__root] entry is the root
    level, and the active appenders are not empty and are each registered
    under their key, then [storeConfig] followed by [restoreConfig] leaves
    the stored overrides, the root level and the active appenders as they
    were, and [restoreConfig] does not write to the storage. *)
Theorem store_then_restore (w : World) (o : list (string * Appender)) :
  is_Some (storage (factory w)) ->
  appenders (factory w) = Some o ->
  o <> [] ->
  NoDup (Obj.keys o) ->
  (forall k a, (k, a) ∈ o -> getValidAppender k (factory w) = Some a) ->
  (forall name, storedLevels (factory w) !! name <> Some OFF) ->
  storedLevels (factory w) !! "__root" = Some (theRootLevel (factory w)) ->
  let stored := exec storeConfig w in
  let back := exec restoreConfig stored in
  outcome storeConfig w = JS.Normal tt
  /\ storage (factory stored)
     = Some (Stored (LoggerFactoryConfig.mk
                       (Some (Level_name <$> storedLevels (factory w)))
                       (Some (Obj.keys o))))
  /\ storedLevels (factory back) = storedLevels (factory w)
  /\ theRootLevel (factory back) = theRootLevel (factory w)
  /\ appenders (factory back) = Some o
  /\ storage (factory back) = storage (factory stored).
Proof.
  intros [item Hs] Ha Hne Hnd Hreg Hoff Hroot stored back.
  assert (storeConfig w = (stored_world w, JS.Normal tt)) as Hstore
      by (apply storeConfig_storable; right; eexists; exact Ha).
  subst back stored. unfold exec, outcome. rewrite Hstore. cbn [fst snd].
  rewrite restoreConfig_spec. cbn [fst factory].
  assert (persisted (factory w)
          = Some (Stored (LoggerFactoryConfig.mk
                            (Some (Level_name <$> storedLevels (factory w)))
                            (Some (Obj.keys o))))) as Hp.
  { unfold persisted. rewrite Hs, Ha. reflexivity. }
  unfold stored_world. cbn [factory]. rewrite Hp.
  set (f1 := with_storage _ (factory w)).
  assert (omap (fun s => truthy (getValidLevel (InString s)))
            (Level_name <$> storedLevels (factory w))
          = storedLevels (factory w)) as Hlevels.
  { apply map_eq. intros name. rewrite lookup_omap, lookup_fmap.
    destruct (storedLevels (factory w) !! name) as [l|] eqn:El; [|reflexivity].
    change (truthy (getValidLevel (InString (Level_name l))) = Some l).
    rewrite getValidLevel_name. apply truthy_id. rewrite <- El. apply Hoff. }
  assert (restored f1
          = with_appenders (Some o)
              (with_theRootLevel (theRootLevel (factory w))
                 (with_storedLevels (storedLevels (factory w)) f1))) as Hr.
  { unfold restored. subst f1. cbn [storage with_storage LoggerFactoryConfig.levels
      LoggerFactoryConfig.appenders mbind option_bind].
    destruct (valid_levels_spec (Level_name <$> storedLevels (factory w)))
      as [[_ He]|[-> _]].
    { rewrite Hlevels in He. rewrite He, lookup_empty in Hroot. discriminate Hroot. }
    rewrite Hlevels.
    assert (truthy (parsed_root (Some (Level_name <$> storedLevels (factory w))))
            = Some (theRootLevel (factory w))) as ->.
    { unfold parsed_root. rewrite lookup_fmap, Hroot.
      change (Level_name <$> Some (theRootLevel (factory w)))
        with (Some (Level_name (theRootLevel (factory w)))). cbv beta iota.
      assert (String.eqb (Level_name (theRootLevel (factory w))) EmptyString = false) as ->
          by (destruct (theRootLevel (factory w)); reflexivity).
      rewrite getValidLevel_name. apply truthy_id. rewrite <- Hroot. apply Hoff. }
    assert (resolve_appenders
              (with_storage
                 (Some (Stored (LoggerFactoryConfig.mk
                                  (Some (Level_name <$> storedLevels (factory w)))
                                  (Some (Obj.keys o)))))
                 (factory w)) (Obj.keys o) = Some o) as ->.
    { rewrite resolve_appenders_keys; [destruct o; [contradiction|reflexivity]|exact Hnd|].
      intros k a Hin. exact (Hreg k a Hin). }
    reflexivity. }
  rewrite Hr. repeat split.
Qed.

Lemma store_then_restore_witness :
  let w := exec (setLogLevel (SelString "app") (InString "TRACE")) page in
  storedLevels (factory (exec restoreConfig (exec storeConfig w))) = storedLevels (factory w)
  /\ theRootLevel (factory (exec restoreConfig (exec storeConfig w))) = theRootLevel (factory w)
  /\ appenders (factory (exec restoreConfig (exec storeConfig w))) = Some [("console", 0%nat)].
Proof.
  intros w.
  destruct (store_then_restore w [("console", 0%nat)]) as (_ & _ & H1 & H2 & H3 & _).
  - eexists. vm_compute. reflexivity.
  - reflexivity.
  - discriminate.
  - apply NoDup_singleton.
  - intros k a Hin. apply list_elem_of_singleton in Hin. injection Hin as -> ->. reflexivity.
  - apply no_OFF_level_listed. vm_compute. reflexivity.
  - vm_compute. reflexivity.
  - split; [exact H1|]. split; [exact H2|exact H3].
Defined.

End RoundTrip.

(** ** The factory: what holds in every reachable world *)

Section Reach.

Import LoggerFactory.

Lemma alters_names change cache ls (r : loc) l :
  (forall n l, Logger.name (change n l) = Logger.name l) ->
  ls !! r = Some l ->
  exists l', alters change cache ls !! r = Some l' /\ Logger.name l' = Logger.name l.
Proof.
  intros Hname. revert ls l. induction cache as [|[name0 r0] cache IH]; intros ls l Hl.
  - exists l. split; [exact Hl|reflexivity].
  - change (alters change ((name0, r0) :: cache) ls)
      with (alters change cache (alter (change name0) r0 ls)).
    destruct (decide (r0 = r)) as [->|Hne].
    + destruct (IH (alter (change name0) r ls) (change name0 l)) as (l' & Hl' & Hn).
      { rewrite list_lookup_alter_eq. apply fmap_Some. exists l.
        split; [exact Hl|reflexivity]. }
      exists l'. split; [exact Hl'|]. rewrite Hn. apply Hname.
    + apply IH. rewrite list_lookup_alter_ne by exact Hne. exact Hl.
Qed.

Lemma cache_sound_frame w w' :
  cachedLoggers (factory w') = cachedLoggers (factory w) ->
  (forall r l, loggers w !! r = Some l ->
               exists l', loggers w' !! r = Some l' /\ Logger.name l' = Logger.name l) ->
  storable (factory w') ->
  cache_sound w -> cache_sound w'.
Proof.
  intros Hc Hl Hst (Hn1 & Hn2 & Hent & _). unfold cache_sound. rewrite Hc.
  split; [exact Hn1|]. split; [exact Hn2|]. split; [|exact Hst].
  intros name r Hin. destruct (Hent name r Hin) as (Hne & l & Hlook & Hname).
  split; [exact Hne|]. destruct (Hl r l Hlook) as (l' & Hl' & Hn').
  exists l'. split; [exact Hl'|]. congruence.
Qed.

Lemma sound_after change cache' f' w :
  (forall n l, Logger.name (change n l) = Logger.name l) ->
  cachedLoggers f' = cachedLoggers (factory w) ->
  storable f' ->
  cache_sound w ->
  cache_sound (mkWorld (alters change cache' (loggers w)) f').
Proof.
  intros Hname Hc Hst. apply cache_sound_frame; [exact Hc| |exact Hst].
  intros r l Hl. apply alters_names; assumption.
Qed.

Lemma storable_stored w : storable (factory w) -> storable (factory (stored_world w)).
Proof.
  unfold storable, stored_world, persisted. cbn [factory storage appenders with_storage].
  intros [Hs|Ha]; [|right; exact Ha]. rewrite Hs. left. reflexivity.
Qed.

Lemma sound_stored w : cache_sound w -> cache_sound (stored_world w).
Proof.
  intros H. apply (cache_sound_frame w); [reflexivity| |apply storable_stored, H|exact H].
  intros r l Hl. exists l. split; [exact Hl|reflexivity].
Qed.

Lemma restored_storable f : storable f -> storable (restored f).
Proof.
  intros H. destruct (storage f) as [item|] eqn:Hs.
  - assert (is_Some (appenders f)) as Ha by (destruct H as [H|H]; [congruence|exact H]).
    right. unfold restored. rewrite Hs. destruct item as [| |parsed]; try exact Ha.
    destruct (LoggerFactoryConfig.levels parsed ≫= valid_levels),
      (truthy (parsed_root (LoggerFactoryConfig.levels parsed))),
      (LoggerFactoryConfig.appenders parsed ≫= resolve_appenders f);
      try exact Ha.
    eexists. reflexivity.
  - unfold restored. rewrite Hs. exact H.
Qed.

Lemma set_matching_storable nameMode arg hit lvl w :
  storable (factory w) ->
  exists message,
    set_matching nameMode arg hit lvl w
    = (stored_world
         (mkWorld
            (alters (fun _ => Logger.set_level (Some lvl))
               (selected hit (cachedLoggers (factory w)) 0) (loggers w))
            (with_storedLevels
               (fold_left (fun m entry => put entry.1 lvl m)
                  (selected hit (cachedLoggers (factory w)) 0) (storedLevels (factory w)))
               (factory w))),
       JS.Normal message).
Proof.
  intros Hst. destruct (set_matching_spec nameMode arg hit lvl w) as (message & -> & _).
  exists message. rewrite storeConfig_storable; [reflexivity|].
  destruct Hst as [Hs|Ha]; [left; exact Hs|right; exact Ha].
Qed.

Lemma init_spec console storage rootLevel w :
  init console storage rootLevel w
  = restoreConfig
      (mkWorld
         (alters (fun _ => Logger.set_appenders [console]) (cachedLoggers (factory w))
            (loggers w))
         ((match truthy rootLevel with
           | Some l => with_theRootLevel l
           | None => fun f => f
           end)
            (with_storage
               (init_storage storage
                  (with_appenders (Some [("console", console)])
                     (with_registeredAppenders
                        (<["console" := Instance console]> (registeredAppenders (factory w)))
                        (factory w))))
               (with_appenders (Some [("console", console)])
                  (with_registeredAppenders
                     (<["console" := Instance console]> (registeredAppenders (factory w)))
                     (factory w)))))).
Proof.
  unfold init. unfold bind at 1, registerAppender, assign.
  unfold bind at 1.
  rewrite (setLogAppenders_spec _ ["console"] [("console", console)]).
  - unfold bind at 1, assign. unfold bind at 1.
    destruct storage as [|item], (truthy rootLevel); reflexivity.
  - unfold resolve_appenders, getValidAppender.
    cbn [fold_left factory registeredAppenders with_registeredAppenders].
    rewrite lookup_insert_eq. reflexivity.
Qed.

Lemma selected_subset hit cache i entry :
  entry ∈ selected hit cache i -> entry ∈ cache.
Proof.
  revert i. induction cache as [|e cache IH]; intros i H; [exact H|].
  cbn [selected] in H. destruct (hit e.1 i).
  - apply elem_of_cons in H as [->|H]; [left|right; exact (IH _ H)].
  - right. exact (IH _ H).
Qed.

Lemma sound_step op w : cache_sound w -> cache_sound (exec (call op) w).
Proof.
  intros H. pose proof H as (Hn1 & Hn2 & Hent & Hst).
  destruct op as [console st rootLevel|name appender|identifier|arg level|names|level| | |item];
    unfold exec, call; cbn [fst].
  - rewrite init_spec. set (w4 := mkWorld _ _).
    assert (cache_sound w4) as H4.
    { subst w4. apply (sound_after (fun _ => Logger.set_appenders [console]));
        [reflexivity|destruct (truthy rootLevel); reflexivity| |exact H].
      right. destruct (truthy rootLevel); eexists; reflexivity. }
    rewrite restoreConfig_spec. cbn [fst].
    apply (sound_after (fun name => refreshed name (restored (factory w4))));
      [reflexivity|apply restored_fields|apply restored_storable, H4|exact H4].
  - apply (cache_sound_frame w); [reflexivity| |exact Hst|exact H].
    intros r l Hl. exists l. split; [exact Hl|reflexivity].
  - rewrite getLogger_find.
    destruct (list_find _ _) as [[i [n r]]|] eqn:Hfind; [exact H|].
    apply find_name_None in Hfind. cbn [fst]. unfold cache_sound.
    cbn [factory loggers cachedLoggers with_cachedLoggers].
    rewrite !fmap_app. cbn [fmap list_fmap fst snd].
    split; [|split; [|split; [|exact Hst]]].
    + apply NoDup_app. split; [exact Hn1|]. split; [|apply NoDup_singleton].
      intros x Hx ->%list_elem_of_singleton. contradiction.
    + apply NoDup_app. split; [exact Hn2|]. split; [|apply NoDup_singleton].
      intros x Hx ->%list_elem_of_singleton.
      apply list_elem_of_fmap in Hx as ([n r] & Hr & Hin). cbn in Hr. subst r.
      destruct (Hent n _ Hin) as (_ & l & Hl & _).
      apply lookup_lt_Some in Hl. lia.
    + intros name r [Hin|Hin%list_elem_of_singleton]%elem_of_app.
      * destruct (Hent name r Hin) as (Hne & l & Hl & Hname).
        split; [exact Hne|]. exists l. split; [|exact Hname].
        apply lookup_app_l_Some. exact Hl.
      * injection Hin as -> ->. split.
        -- unfold theName. destruct (String.eqb_spec identifier EmptyString); [discriminate|assumption].
        -- eexists. split; [apply list_lookup_middle; reflexivity|reflexivity].
  - unfold setLogLevel. destruct (getValidLevel level) as [theLevel|]; [|exact H].
    destruct arg as [s|n|shown]; [| |exact H].
    + destruct (RegExp.new _); [|exact H|exact H].
      destruct (set_matching_storable true (JS.replace "*" ".*" s)
                  (fun loggerName _ => RegExp.test p loggerName) theLevel w Hst)
        as (message & ->).
      cbn [fst]. apply sound_stored.
      apply (sound_after (fun _ => Logger.set_level (Some theLevel)));
        [reflexivity|reflexivity|exact Hst|exact H].
    + destruct (set_matching_storable false (pretty n)
                  (fun _ index => n =? index) theLevel w Hst) as (message & ->).
      cbn [fst]. apply sound_stored.
      apply (sound_after (fun _ => Logger.set_level (Some theLevel)));
        [reflexivity|reflexivity|exact Hst|exact H].
  - destruct (resolve_appenders (factory w) names) as [aps|] eqn:Hres.
    + rewrite (setLogAppenders_spec w names aps Hres). cbn [fst]. apply sound_stored.
      apply (sound_after (fun _ => Logger.set_appenders (Obj.values aps)));
        [reflexivity|reflexivity|right; eexists; reflexivity|exact H].
    + unfold setLogAppenders, bind, this. cbn [id]. rewrite Hres. exact H.
  - destruct (getValidLevel level) as [theLevel|] eqn:Hv.
    + rewrite (set_level_spec w level theLevel Hv Hst). cbn [fst]. apply sound_stored.
      apply (sound_after (fun _ => Logger.set_rootLevel theLevel));
        [reflexivity|reflexivity|exact Hst|exact H].
    + unfold LoggerFactory.set_level. rewrite Hv. exact H.
  - rewrite (clear_spec w Hst). cbn [fst].
    apply (sound_after
             (fun _ l => Logger.set_rootLevel DEFAULT_ROOT_LEVEL (Logger.set_level None l)));
      [reflexivity|reflexivity|right; eexists; reflexivity|exact H].
  - rewrite restoreConfig_spec. cbn [fst].
    apply (sound_after (fun name => refreshed name _));
      [reflexivity|apply restored_fields|apply restored_storable, Hst|exact H].
  - destruct (storage (factory w)) eqn:Hs; [|exact H].
    apply (cache_sound_frame w); [reflexivity| | |exact H].
    + intros r l Hl. exists l. split; [exact Hl|reflexivity].
    + destruct Hst as [Hnone|Ha]; [congruence|right; exact Ha].
Qed.

Lemma no_TypeError op w : cache_sound w -> outcome (call op) w <> JS.Throw JS.TypeError.
Proof.
  intros (_ & _ & _ & Hst).
  destruct op as [console st rootLevel|name appender|identifier|arg level|names|level| | |item];
    unfold outcome, call; cbn [snd].
  - rewrite init_spec, restoreConfig_spec. discriminate.
  - discriminate.
  - rewrite getLogger_find. destruct (list_find _ _) as [[i [n r]]|]; discriminate.
  - unfold setLogLevel. destruct (getValidLevel level) as [theLevel|]; [|discriminate].
    destruct arg as [s|n|shown]; [| |discriminate].
    + destruct (RegExp.new _); [|discriminate|discriminate].
      destruct (set_matching_storable true (JS.replace "*" ".*" s)
                  (fun loggerName _ => RegExp.test p loggerName) theLevel w Hst)
        as (message & ->). discriminate.
    + destruct (set_matching_storable false (pretty n)
                  (fun _ index => n =? index) theLevel w Hst) as (message & ->).
      discriminate.
  - destruct (resolve_appenders (factory w) names) as [aps|] eqn:Hres.
    + rewrite (setLogAppenders_spec w names aps Hres). discriminate.
    + unfold setLogAppenders, bind, this. cbn [id]. rewrite Hres. discriminate.
  - destruct (getValidLevel level) as [theLevel|] eqn:Hv.
    + rewrite (set_level_spec w level theLevel Hv Hst). discriminate.
    + unfold LoggerFactory.set_level. rewrite Hv. discriminate.
  - rewrite (clear_spec w Hst). discriminate.
  - rewrite restoreConfig_spec. discriminate.
  - discriminate.
Qed.

(** X8: in every world that calls on the factory lead to ([init],
    [registerAppender], [getLogger], [setLogLevel], [setLogAppenders], the
    root-level setter, [clear], [restoreConfig], and writes to the storage
    by others), the cache holds no name twice and no logger twice, every
    entry holds a logger whose name is its key and is not empty, and no
    further call throws a [TypeError]: whenever the factory has a storage,
    its appenders are assigned, so that [storeConfig] completes. *)
Theorem reachable_worlds_are_sound (w : World) :
  reachable w ->
  cache_sound w
  /\ forall op, outcome (call op) w <> JS.Throw JS.TypeError.
Proof.
  intros [ops ->].
  assert (cache_sound (fold_left (fun w op => exec (call op) w) ops theInstance)) as H.
  { induction ops as [|op ops IH] using rev_ind.
    - split; [apply NoDup_nil_2|]. split; [apply NoDup_nil_2|]. split.
      + intros name r Hin. inversion Hin.
      + left. reflexivity.
    - rewrite fold_left_app. cbn [fold_left]. apply sound_step, IH. }
  split; [exact H|]. intros op. apply no_TypeError, H.
Qed.

Lemma reachable_worlds_are_sound_witness :
  cache_sound (exec clear page)
  /\ forall op, outcome (call op) (exec clear page) <> JS.Throw JS.TypeError.
Proof.
  apply reachable_worlds_are_sound.
  exists [Init 0%nat (Another (Some Absent)) None; GetLogger "app"; Clear]. reflexivity.
Defined.

End Reach.

Section RootEntry.

Import LoggerFactory.

Lemma adopted_root levels adopted root :
  valid_levels levels = Some adopted ->
  truthy (parsed_root (Some levels)) = Some root ->
  adopted !! "__root" = Some root.
Proof.
  intros Hv Hr. destruct (valid_levels_spec levels) as [[H _]|[H _]];
    rewrite H in Hv; [discriminate Hv|]. injection Hv as <-.
  rewrite lookup_omap. unfold parsed_root in Hr.
  destruct (levels !! "__root") as [s|]; [|discriminate Hr].
  destruct (String.eqb s EmptyString); [discriminate Hr|exact Hr].
Qed.

Lemma restored_root_entry f :
  root_entry_ok f \/ (exists item, storage f = Some item /\ item <> Absent) ->
  root_entry_ok (restored f).
Proof.
  intros H. unfold restored.
  destruct (storage f) as [[| |parsed]|] eqn:Hs.
  - destruct H as [H|(item & [= <-] & Hne)]; [exact H|contradiction].
  - apply lookup_singleton_eq.
  - destruct (LoggerFactoryConfig.levels parsed) as [levels|] eqn:Hl;
      [|apply lookup_singleton_eq].
    cbn [mbind option_bind].
    destruct (valid_levels levels) as [adopted|] eqn:Hv; [|apply lookup_singleton_eq].
    destruct (truthy (parsed_root (Some levels))) as [root|] eqn:Hr;
      [|apply lookup_singleton_eq].
    destruct (LoggerFactoryConfig.appenders parsed ≫= resolve_appenders f);
      [|apply lookup_singleton_eq].
    exact (adopted_root levels adopted root Hv Hr).
  - destruct H as [H|(item & [=] & _)]. exact H.
Qed.

Lemma inserts_lookup_other (lvl : Level) (sel : list (string * loc))
    (m : gmap string Level) key :
  key ∉ sel.*1 ->
  fold_left (fun m (entry : string * loc) => put entry.1 lvl m) sel m !! key = m !! key.
Proof.
  revert m. induction sel as [|[n r] sel IH]; intros m Hk; [reflexivity|].
  rewrite fmap_cons in Hk. apply not_elem_of_cons in Hk as [Hne Hk].
  cbn [fold_left]. rewrite IH by exact Hk. unfold put. cbn [fst] in *.
  destruct (String.eqb n "__proto__"); [reflexivity|].
  apply lookup_insert_ne. congruence.
Qed.

Lemma set_matching_root_entry nameMode arg hit lvl w :
  storable (factory w) ->
  "__root" ∉ (cachedLoggers (factory w)).*1 ->
  root_entry_ok (factory w) ->
  root_entry_ok (factory (set_matching nameMode arg hit lvl w).1).
Proof.
  intros Hst Hno Hok.
  destruct (set_matching_storable nameMode arg hit lvl w Hst) as (message & ->).
  unfold root_entry_ok, stored_world.
  cbn [fst factory with_storage with_storedLevels storedLevels theRootLevel].
  rewrite inserts_lookup_other; [exact Hok|].
  intros Hin. apply Hno. apply list_elem_of_fmap in Hin as (entry & -> & Hin).
  apply list_elem_of_fmap_2. exact (selected_subset _ _ _ _ Hin).
Qed.

(** X9: the [__root] entry of the stored overrides stays equal to the root
    level of the factory through every call but two: an [init] that is given
    a root level, and a [setLogLevel] made while a logger named [__root] is
    cached.  [clear], the assignment of a valid root level, and
    [restoreConfig] when an item is stored make it so whatever the state
    before. *)
Theorem root_entry_is_kept (w : World) :
  cache_sound w ->
  (forall op,
      root_entry_ok (factory w) -> keeps_root_entry op w ->
      root_entry_ok (factory (exec (call op) w)))
  /\ root_entry_ok (factory (exec clear w))
  /\ (forall level, is_Some (getValidLevel level) ->
        root_entry_ok (factory (exec (LoggerFactory.set_level level) w)))
  /\ (forall item, storage (factory w) = Some item -> item <> Absent ->
        root_entry_ok (factory (exec restoreConfig w))).
Proof.
  intros (_ & _ & _ & Hst).
  split; [|split; [|split]].
  - intros op Hok Hop.
    destruct op as [console st rootLevel|name appender|identifier|arg level|names|level| | |item];
      unfold exec, call; cbn [fst].
    + cbn in Hop. rewrite init_spec, restoreConfig_spec, Hop. cbn [fst factory].
      apply restored_root_entry. left. exact Hok.
    + exact Hok.
    + rewrite getLogger_find. destruct (list_find _ _) as [[i [n r]]|]; exact Hok.
    + cbn in Hop. unfold setLogLevel.
      destruct (getValidLevel level) as [theLevel|]; [|exact Hok].
      destruct arg as [s|n|shown]; [| |exact Hok].
      * destruct (RegExp.new _); [|exact Hok|exact Hok].
        apply set_matching_root_entry; assumption.
      * apply set_matching_root_entry; assumption.
    + destruct (resolve_appenders (factory w) names) as [aps|] eqn:Hres.
      * rewrite (setLogAppenders_spec w names aps Hres). exact Hok.
      * unfold setLogAppenders, bind, this. cbn [id]. rewrite Hres. exact Hok.
    + destruct (getValidLevel level) as [theLevel|] eqn:Hv.
      * rewrite (set_level_spec w level theLevel Hv Hst). apply lookup_insert_eq.
      * unfold LoggerFactory.set_level. rewrite Hv. exact Hok.
    + rewrite (clear_spec w Hst). apply lookup_singleton_eq.
    + rewrite restoreConfig_spec. apply restored_root_entry. left. exact Hok.
    + destruct (storage (factory w)); exact Hok.
  - unfold exec. rewrite (clear_spec w Hst). apply lookup_singleton_eq.
  - intros level [theLevel Hv]. unfold exec.
    rewrite (set_level_spec w level theLevel Hv Hst). apply lookup_insert_eq.
  - intros item Hs Hne. unfold exec. rewrite restoreConfig_spec.
    apply restored_root_entry. right. exists item. split; assumption.
Qed.

Lemma page_is_reachable : reachable page.
Proof. exists [Init 0%nat (Another (Some Absent)) None; GetLogger "app"]. reflexivity. Qed.

Lemma root_entry_is_kept_witness :
  root_entry_ok
    (factory (exec (call (SetLogLevel (SelString "a*") (InString "DEBUG"))) page))
  /\ root_entry_ok (factory (exec (LoggerFactory.set_level (InNumber 4)) page))
  /\ root_entry_ok (factory (exec restoreConfig page_with_stored_OFF)).
Proof.
  assert (cache_sound page) as Hpage.
  { split; [vm_compute; apply NoDup_singleton|].
    split; [vm_compute; apply NoDup_singleton|]. split.
    - intros name r Hin. vm_compute in Hin. apply list_elem_of_singleton in Hin.
      injection Hin as -> ->. split; [discriminate|]. eexists. split; reflexivity.
    - right. eexists. reflexivity. }
  assert (cache_sound page_with_stored_OFF) as Hoff.
  { split; [vm_compute; apply NoDup_singleton|].
    split; [vm_compute; apply NoDup_singleton|]. split.
    - intros name r Hin. vm_compute in Hin. apply list_elem_of_singleton in Hin.
      injection Hin as -> ->. split; [discriminate|]. eexists. split; reflexivity.
    - right. eexists. reflexivity. }
  split; [|split].
  - apply (proj1 (root_entry_is_kept page Hpage)).
    + vm_compute. reflexivity.
    + vm_compute. intros H. apply list_elem_of_singleton in H. discriminate H.
  - apply (proj1 (proj2 (proj2 (root_entry_is_kept page Hpage)))). eexists. reflexivity.
  - apply (proj2 (proj2 (proj2 (root_entry_is_kept page_with_stored_OFF Hoff)))
             (Stored (LoggerFactoryConfig.mk
                        (Some {[ "__root" := "OFF"; "app" := "DEBUG" ]})
                        (Some ["console"])))).
    + reflexivity.
    + discriminate.
Defined.

(** The two calls that break it. *)
Lemma init_with_a_root_level_breaks_the_entry :
  let w := exec (init 0%nat (Another (Some Absent)) (Some DEBUG)) theInstance in
  theRootLevel (factory w) = DEBUG /\ storedLevels (factory w) !! "__root" = Some INFO.
Proof. vm_compute. split; reflexivity. Qed.

Lemma setLogLevel_on_a_logger_named_root_breaks_the_entry :
  let w := exec (setLogLevel (SelNumber 1) (InString "TRACE"))
             (exec (getLogger "__root") page) in
  theRootLevel (factory w) = INFO /\ storedLevels (factory w) !! "__root" = Some TRACE.
Proof. vm_compute. split; reflexivity. Qed.

End RootEntry.

(** ** The factory: loggers in line with it, and [clear] *)

Section InLine.

Import LoggerFactory.

(** X10: every call but [clear] keeps the cached loggers in line with the
    factory (each has the root level and the appender list of the factory):
    [registerAppender], [getLogger], [setLogLevel], [setLogAppenders], the
    root-level setter and a write to the storage keep them so, and [init]
    and [restoreConfig] bring them in line whatever the state before. *)
Theorem calls_keep_loggers_in_line (w : World) :
  (forall op, op <> Clear -> in_sync w -> in_sync (exec (call op) w))
  /\ in_sync (exec restoreConfig w)
  /\ (forall console storage rootLevel, in_sync (exec (init console storage rootLevel) w)).
Proof.
  assert (forall console storage rootLevel, in_sync (exec (init console storage rootLevel) w))
    as Hinit.
  { intros console st rootLevel. unfold exec. rewrite init_spec. apply restoreConfig_in_sync. }
  split; [|split; [apply restoreConfig_in_sync|exact Hinit]].
  intros op Hop H.
  destruct op as [console st rootLevel|name appender|identifier|arg level|names|level| | |item].
  - apply Hinit.
  - exact H.
  - apply (getLogger_in_sync w identifier H).
  - apply (setLogLevel_in_sync w arg level H).
  - apply (setLogAppenders_in_sync w names H).
  - apply (set_level_in_sync w level H).
  - contradiction.
  - apply restoreConfig_in_sync.
  - unfold exec, call. cbn [fst]. destruct (storage (factory w)); exact H.
Qed.

Lemma calls_keep_loggers_in_line_witness :
  in_sync (exec (call (SetLogAppenders ["console"; "ls"])) page).
Proof.
  apply (proj1 (calls_keep_loggers_in_line page)).
  - discriminate.
  - intros name r logger Hin Hl. vm_compute in Hin.
    apply list_elem_of_singleton in Hin. injection Hin as -> ->.
    vm_compute in Hl. injection Hl as <-. split; reflexivity.
Defined.

(** X11: [clear], when [storeConfig] can complete, evicts no logger:
    every cached name still yields the logger it yielded before, and every
    cached logger is left without a level of its own and with the default
    root level as its effective level.  A logger created after [clear] has
    no appender: its severity calls reach nothing, whatever its level. *)
Theorem clear_keeps_the_loggers (w : World) :
  storable (factory w) ->
  let w' := exec clear w in
  outcome clear w = JS.Normal "Cleared log levels and appenders. New root level is 'INFO'."
  /\ cachedLoggers (factory w') = cachedLoggers (factory w)
  /\ length (loggers w') = length (loggers w)
  /\ (forall identifier,
        theName identifier ∈ (cachedLoggers (factory w)).*1 ->
        getLogger identifier w' = (w', outcome (getLogger identifier) w))
  /\ (forall name r logger,
        (name, r) ∈ cachedLoggers (factory w) -> loggers w' !! r = Some logger ->
        Logger.level logger = None
        /\ Logger.effectiveLevel logger = DEFAULT_ROOT_LEVEL)
  /\ (forall identifier logger s msg optionalParams,
        theName identifier ∉ (cachedLoggers (factory w)).*1 ->
        loggers (exec (getLogger identifier) w') !! length (loggers w') = Some logger ->
        Logger.appenders logger = []
        /\ severity_call s msg optionalParams logger = []).
Proof.
  intros Hst w'.
  destruct (clear_resets w Hst) as (Hsl & Hroot & Happ & Hcache & _ & Hlog & Hget).
  fold w' in Hsl, Hroot, Happ, Hcache, Hlog, Hget.
  split; [subst w'; unfold outcome; rewrite (clear_spec w Hst); reflexivity|].
  split; [exact Hcache|]. split; [|split; [|split]].
  - subst w'. unfold exec. rewrite (clear_spec w Hst). cbn [fst loggers].
    clear. generalize (loggers w). induction (cachedLoggers (factory w)) as [|[n r] c IH];
      intros ls; [reflexivity|].
    change (alters ?g ((n, r) :: c) ls) with (alters g c (alter (g n) r ls)).
    rewrite IH. apply length_alter.
  - intros identifier Hin.
    destruct (list_find (fun entry : string * loc => entry.1 = theName identifier)
                (cachedLoggers (factory w))) as [[i entry]|] eqn:Hfind.
    + destruct (Hget identifier i entry Hfind) as [H1 H2].
      rewrite H2. unfold outcome. rewrite H1. reflexivity.
    + apply find_name_None in Hfind. contradiction.
  - intros name r logger Hin Hl. destruct (Hlog name r logger Hin Hl) as (H1 & _ & H3).
    split; assumption.
  - intros identifier logger s msg optionalParams Hnew Hl.
    rewrite <- Hcache in Hnew.
    pose proof (getLogger_creates w' identifier Hnew) as Hmade.
    rewrite Hmade in Hl. injection Hl as <-.
    assert (appender_list (factory w') = []) as Hnone
        by (unfold appender_list; rewrite Happ; reflexivity).
    split.
    + cbn. exact Hnone.
    + rewrite severity_call_log. unfold Logger.log.
      destruct (Logger.shouldLog _ _); [|reflexivity].
      cbn [Logger.appenders Logger.new Logger.set_level Logger.set_rootLevel
           Logger.calculateEffectiveLevel]. rewrite Hnone. reflexivity.
Qed.

Lemma clear_keeps_the_loggers_witness :
  getLogger "app" (exec clear page) = (exec clear page, outcome (getLogger "app") page)
  /\ cachedLoggers (factory (exec clear page)) = cachedLoggers (factory page).
Proof.
  destruct (clear_keeps_the_loggers page) as (_ & H1 & _ & H2 & _).
  - right. eexists. reflexivity.
  - split; [|exact H1]. apply H2. vm_compute. left.
Defined.

End InLine.

(** ** [setLogLevel] with a name *)

Section Names.

Import LoggerFactory.

Lemma chars_append a b :
  list_ascii_of_string (a +:+ b) = list_ascii_of_string a ++ list_ascii_of_string b.
Proof.
  induction a as [|c a IH]; [reflexivity|].
  change (String c a +:+ b) with (String c (a +:+ b)). cbn [list_ascii_of_string].
  rewrite IH. reflexivity.
Qed.

Lemma new_anchored s :
  RegExp.new ("^" +:+ s +:+ "$")
  = if existsb RegExp.unsupported_char (list_ascii_of_string s) then RegExp.Unsupported
    else match RegExp.parse (list_ascii_of_string s) with
         | Some p => RegExp.Pattern p
         | None => RegExp.Invalid
         end.
Proof.
  unfold RegExp.new. change ("^" +:+ s +:+ "$") with (String "^" (s +:+ "$")).
  cbn [list_ascii_of_string]. rewrite chars_append. cbn [list_ascii_of_string].
  rewrite rev_unit. cbn [Ascii.eqb Bool.eqb andb]. rewrite rev_involutive. reflexivity.
Qed.

Lemma parse_plain l tail :
  forallb (fun c => negb (Ascii.eqb c "*")) l = true ->
  match tail with c :: _ => c <> "*"%char | [] => True end ->
  RegExp.parse (l ++ tail)
  = app (map (fun c => RegExp.Once (RegExp.atom_of c)) l) <$> RegExp.parse tail.
Proof.
  intros Hl Htail. induction l as [|c r IH].
  - cbn [app map]. destruct (RegExp.parse tail); reflexivity.
  - cbn [forallb] in Hl. apply andb_prop in Hl as [Hc Hr]. specialize (IH Hr).
    destruct (Ascii.eqb_spec c "*") as [->|Hne]; [discriminate Hc|].
    change ((c :: r) ++ tail) with (c :: (r ++ tail)). cbn [RegExp.parse].
    destruct (Ascii.eqb_spec c "*") as [?|_]; [contradiction|].
    destruct r as [|q r'].
    + cbn [app map]. destruct tail as [|c0 rest]; [reflexivity|].
      destruct (Ascii.eqb_spec c0 "*") as [?|_]; [contradiction|].
      destruct (RegExp.parse (c0 :: rest)); reflexivity.
    + change ((q :: r') ++ tail) with (q :: (r' ++ tail)) in *.
      cbn [forallb] in Hr. apply andb_prop in Hr as [Hq _].
      destruct (Ascii.eqb_spec q "*") as [->|_]; [discriminate Hq|].
      rewrite IH. destruct (RegExp.parse tail); reflexivity.
Qed.

Lemma plain_atoms l :
  forallb plain_char l = true ->
  map (fun c => RegExp.Once (RegExp.atom_of c)) l = map (fun c => RegExp.Once (RegExp.Char c)) l.
Proof.
  induction l as [|c l IH]; intros H; [reflexivity|].
  cbn [forallb] in H. apply andb_prop in H as [Hc Hl]. cbn [map]. rewrite (IH Hl).
  unfold plain_char in Hc. unfold RegExp.atom_of.
  destruct (Ascii.eqb c "."); [discriminate Hc|reflexivity].
Qed.

Lemma plain_no_star l :
  forallb plain_char l = true -> forallb (fun c => negb (Ascii.eqb c "*")) l = true.
Proof.
  induction l as [|c l IH]; intros H; [reflexivity|].
  cbn [forallb] in *. apply andb_prop in H as [Hc Hl]. rewrite (IH Hl), andb_true_r.
  unfold plain_char in Hc. destruct (Ascii.eqb c "."), (Ascii.eqb c "*"); try discriminate Hc.
  reflexivity.
Qed.

Lemma plain_supported l :
  forallb plain_char l = true -> existsb RegExp.unsupported_char l = false.
Proof.
  induction l as [|c l IH]; intros H; [reflexivity|].
  cbn [forallb existsb] in *. apply andb_prop in H as [Hc Hl]. rewrite (IH Hl), orb_false_r.
  unfold plain_char in Hc.
  destruct (RegExp.unsupported_char c); [|reflexivity].
  rewrite orb_true_r in Hc. discriminate Hc.
Qed.

Lemma literal_star_free s : literal s = true -> star_free s = true.
Proof.
  unfold literal. induction s as [|c s IH]; intros H; [reflexivity|].
  cbn [list_ascii_of_string forallb star_free] in *. apply andb_prop in H as [Hc Hs].
  rewrite (IH Hs), andb_true_r. unfold plain_char in Hc.
  destruct (Ascii.eqb c "."), (Ascii.eqb c "*"); try discriminate Hc. reflexivity.
Qed.

Lemma replace_no_star s : star_free s = true -> JS.replace "*" ".*" s = s.
Proof.
  induction s as [|c s IH]; intros H; [reflexivity|].
  cbn [star_free] in H. apply andb_prop in H as [Hc Hs].
  rewrite replace_skip.
  - rewrite (IH Hs). reflexivity.
  - cbn [String.prefix]. destruct (ascii_dec "*" c) as [<-|_]; [discriminate Hc|reflexivity].
Qed.

Lemma replace_trailing_star p : star_free p = true -> JS.replace "*" ".*" (p +:+ "*") = p +:+ ".*".
Proof. intros H. exact (replace_first_star p EmptyString H). Qed.

Lemma matches_plain p q t :
  RegExp.matches (map (fun c => RegExp.Once (RegExp.Char c)) p ++ q) t
  = match strip_prefix p t with
    | Some rest => RegExp.matches q rest
    | None => false
    end.
Proof.
  revert t. induction p as [|c p IH]; intros t; [reflexivity|].
  cbn [map app]. destruct t as [|d t]; [reflexivity|].
  cbn [RegExp.matches RegExp.accepts strip_prefix]. rewrite IH.
  destruct (Ascii.eqb c d); reflexivity.
Qed.

Lemma matches_any t : RegExp.matches [RegExp.Star RegExp.Dot] t = one_line t.
Proof.
  induction t as [|c t IH]; [reflexivity|].
  cbn [one_line forallb]. fold (one_line t). rewrite <- IH. reflexivity.
Qed.

Lemma test_literal s name :
  RegExp.test (map (fun c => RegExp.Once (RegExp.Char c)) (list_ascii_of_string s)) name
  = String.eqb s name.
Proof.
  unfold RegExp.test. revert name. induction s as [|c s IH]; intros [|d name]; try reflexivity.
  cbn [list_ascii_of_string map RegExp.matches RegExp.accepts String.eqb].
  rewrite IH. destruct (Ascii.eqb c d); reflexivity.
Qed.

Lemma selected_named (P : string -> bool) cache i :
  selected (fun name _ => P name) cache i = named P cache.
Proof.
  revert i. induction cache as [|e cache IH]; intros i; [reflexivity|].
  cbn [selected named List.filter]. rewrite IH. reflexivity.
Qed.

Lemma selected_ext hit hit' cache i :
  (forall name index, hit name index = hit' name index) ->
  selected hit cache i = selected hit' cache i.
Proof.
  intros H. revert i. induction cache as [|e cache IH]; intros i; [reflexivity|].
  cbn [selected]. rewrite H, IH. reflexivity.
Qed.

Lemma set_matching_full nameMode arg hit lvl w :
  storable (factory w) ->
  set_matching nameMode arg hit lvl w
  = (leveled lvl (selected hit (cachedLoggers (factory w)) 0) w,
     JS.Normal (report nameMode arg lvl (selected hit (cachedLoggers (factory w)) 0).*1)).
Proof.
  intros Hst. unfold set_matching, bind at 1, sweep_all. rewrite sweep_forEach.
  unfold bind at 1. rewrite storeConfig_storable
    by (destruct Hst as [Hs|Ha]; [left; exact Hs|right; exact Ha]).
  reflexivity.
Qed.

Lemma leveled_lookup lvl sel w r l' :
  loggers (leveled lvl sel w) !! r = Some l' ->
  exists l, loggers w !! r = Some l
            /\ l' = if decide (r ∈ sel.*2) then Logger.set_level (Some lvl) l else l.
Proof.
  unfold leveled, stored_world. cbn [loggers]. intros Hl'.
  rewrite alters_const in Hl' by reflexivity.
  destruct (decide (r ∈ sel.*2)) as [Hd|Hd].
  - rewrite decide_True in Hl' by exact Hd.
    apply fmap_Some in Hl' as (l & Hl & ->). exists l. split; [exact Hl|reflexivity].
  - rewrite decide_False in Hl' by exact Hd. exists l'. split; [exact Hl'|reflexivity].
Qed.

(** X12: name selectors of [setLogLevel], for a level that normalizes and
    a factory that can store.  A plain name (no syntax character of regular
    expressions) selects the cached loggers of exactly that name.  A plain
    name followed by one asterisk selects the cached loggers whose name
    begins with it and goes on without a line terminator.  The loggers
    selected are given the level, it is recorded under their names (but for
    the name [__proto__], under which nothing is recorded), the record of
    that state is stored, and the message reports them in cache order; every
    other logger and every other override is left as it is. *)
Theorem name_selectors (w : World) (level : LevelInput) (theLevel : Level) :
  getValidLevel level = Some theLevel ->
  storable (factory w) ->
  (forall s,
      literal s = true ->
      setLogLevel (SelString s) level w
      = (leveled theLevel (named (String.eqb s) (cachedLoggers (factory w))) w,
         JS.Normal (report true s theLevel
                      (named (String.eqb s) (cachedLoggers (factory w))).*1)))
  /\ (forall p,
        literal p = true ->
        setLogLevel (SelString (p +:+ "*")) level w
        = (leveled theLevel (named (begins_with p) (cachedLoggers (factory w))) w,
           JS.Normal (report true (p +:+ ".*") theLevel
                        (named (begins_with p) (cachedLoggers (factory w))).*1)))
  /\ (forall sel r l',
        loggers (leveled theLevel sel w) !! r = Some l' ->
        exists l, loggers w !! r = Some l
                  /\ l' = if decide (r ∈ sel.*2)
                          then Logger.set_level (Some theLevel) l else l)
  /\ (forall sel name,
        storedLevels (factory (leveled theLevel sel w)) !! name
        = if decide (name ∈ sel.*1 /\ name <> "__proto__") then Some theLevel
          else storedLevels (factory w) !! name).
Proof.
  intros Hv Hst. split; [|split; [|split]].
  - intros s Hs. unfold setLogLevel. rewrite Hv.
    rewrite (replace_no_star s (literal_star_free s Hs)), new_anchored.
    rewrite (plain_supported _ Hs).
    pose proof (parse_plain (list_ascii_of_string s) [] (plain_no_star _ Hs) I) as Hp.
    rewrite app_nil_r in Hp. rewrite Hp. cbn [RegExp.parse fmap option_fmap option_map].
    rewrite app_nil_r, (plain_atoms _ Hs).
    rewrite (set_matching_full _ _ _ _ _ Hst).
    rewrite (selected_ext _ (fun name _ => String.eqb s name))
      by (intros name index; apply test_literal).
    rewrite selected_named. reflexivity.
  - intros p Hp. unfold setLogLevel. rewrite Hv.
    rewrite (replace_trailing_star p (literal_star_free p Hp)), new_anchored.
    rewrite chars_append, existsb_app, (plain_supported _ Hp).
    change (existsb RegExp.unsupported_char (list_ascii_of_string ".*")) with false.
    cbn [orb].
    rewrite (parse_plain (list_ascii_of_string p) (list_ascii_of_string ".*")
               (plain_no_star _ Hp)) by discriminate.
    change (RegExp.parse (list_ascii_of_string ".*")) with (Some [RegExp.Star RegExp.Dot]).
    cbn [fmap option_fmap option_map]. rewrite (plain_atoms _ Hp).
    rewrite (set_matching_full _ _ _ _ _ Hst).
    rewrite (selected_ext _ (fun name _ => begins_with p name)).
    + rewrite selected_named. reflexivity.
    + intros name index. unfold RegExp.test, begins_with. rewrite matches_plain.
      destruct (strip_prefix _ _); [apply matches_any|reflexivity].
  - intros sel r l'. apply leveled_lookup.
  - intros sel name. unfold leveled, stored_world.
    cbn [factory with_storage with_storedLevels storedLevels].
    induction sel as [|[n r] sel IH] using rev_ind.
    + rewrite decide_False; [reflexivity|]. intros [Hin _]. inversion Hin.
    + rewrite fold_left_app, fmap_app. cbn [fold_left fmap list_fmap fst]. unfold put at 1.
      destruct (String.eqb_spec n "__proto__") as [->|Hproto].
      * rewrite IH.
        destruct (decide (name ∈ sel.*1 /\ name <> "__proto__")) as [[Hin Hne]|Hnot].
        -- rewrite decide_True; [reflexivity|].
           split; [apply elem_of_app; left; exact Hin|exact Hne].
        -- rewrite decide_False; [reflexivity|].
           intros [[Hin|Hin%list_elem_of_singleton]%elem_of_app Hne];
             [apply Hnot; split; assumption|contradiction].
      * destruct (decide (name = n)) as [->|Hne].
        -- rewrite lookup_insert_eq, decide_True; [reflexivity|].
           split; [apply elem_of_app; right; left|exact Hproto].
        -- rewrite lookup_insert_ne by congruence. rewrite IH.
           destruct (decide (name ∈ sel.*1 /\ name <> "__proto__")) as [[Hin Hp]|Hnot].
           ++ rewrite decide_True; [reflexivity|].
              split; [apply elem_of_app; left; exact Hin|exact Hp].
           ++ rewrite decide_False; [reflexivity|].
              intros [[Hin|Hin%list_elem_of_singleton]%elem_of_app Hp];
                [apply Hnot; split; assumption|congruence].
Qed.

Lemma name_selectors_witness :
  setLogLevel (SelString "app") (InString "WARN") page
  = (leveled WARN (named (String.eqb "app") (cachedLoggers (factory page))) page,
     JS.Normal (report true "app" WARN
                  (named (String.eqb "app") (cachedLoggers (factory page))).*1))
  /\ setLogLevel (SelString ("a" +:+ "*")) (InString "WARN") page_aXbY
     = (leveled WARN (named (begins_with "a") (cachedLoggers (factory page_aXbY))) page_aXbY,
        JS.Normal (report true ("a" +:+ ".*") WARN
                     (named (begins_with "a") (cachedLoggers (factory page_aXbY))).*1)).
Proof.
  split.
  - apply (proj1 (name_selectors page (InString "WARN") WARN eq_refl
                    ltac:(right; eexists; reflexivity))).
    reflexivity.
  - apply (proj1 (proj2 (name_selectors page_aXbY (InString "WARN") WARN eq_refl
                           ltac:(right; eexists; reflexivity)))).
    reflexivity.
Defined.

(** *** Patterns that are no regular expression *)

Lemma parse_once c q r :
  c <> "*"%char -> q <> "*"%char ->
  RegExp.parse (c :: q :: r) = cons (RegExp.Once (RegExp.atom_of c)) <$> RegExp.parse (q :: r).
Proof.
  intros Hc Hq.
  change (RegExp.parse (c :: q :: r))
    with (if Ascii.eqb c "*" then None
          else if Ascii.eqb q "*"
               then cons (RegExp.Star (RegExp.atom_of c)) <$> RegExp.parse r
               else cons (RegExp.Once (RegExp.atom_of c)) <$> RegExp.parse (q :: r)).
  rewrite (proj2 (Ascii.eqb_neq c "*") Hc), (proj2 (Ascii.eqb_neq q "*") Hq). reflexivity.
Qed.

Lemma parse_shape n l :
  (length l <= n)%nat ->
  match RegExp.parse l with
  | Some _ => starred l || doubled l = false
  | None => starred l || doubled l = true
  end.
Proof.
  revert l. induction n as [|n IH]; intros l Hn.
  - destruct l; [reflexivity|cbn [length] in Hn; lia].
  - destruct l as [|c [|q r]]; [reflexivity| |].
    + cbn [RegExp.parse starred doubled]. destruct (Ascii.eqb c "*"); reflexivity.
    + destruct (Ascii.eqb_spec c "*") as [->|Hc]; [reflexivity|].
      cbn [starred]. rewrite (proj2 (Ascii.eqb_neq c "*") Hc). cbn [orb].
      change (doubled (c :: q :: r))
        with ((Ascii.eqb c "*" && Ascii.eqb q "*") || doubled (q :: r)).
      rewrite (proj2 (Ascii.eqb_neq c "*") Hc). cbn [andb orb].
      destruct (Ascii.eqb_spec q "*") as [->|Hq].
      * pose proof (IH r ltac:(cbn [length] in Hn; lia)) as Hr.
        rewrite (parse_quantified c r Hc).
        assert (doubled ("*"%char :: r) = starred r || doubled r) as ->
          by (destruct r; reflexivity).
        destruct (RegExp.parse r); exact Hr.
      * pose proof (IH (q :: r) ltac:(cbn [length] in *; lia)) as Hr.
        rewrite (parse_once c q r Hc Hq).
        cbn [starred] in Hr. rewrite (proj2 (Ascii.eqb_neq q "*") Hq) in Hr. cbn [orb] in Hr.
        destruct (RegExp.parse (q :: r)); exact Hr.
Qed.

Lemma parse_None l : RegExp.parse l = None <-> starred l || doubled l = true.
Proof.
  pose proof (parse_shape (length l) l (le_n _)) as H.
  destruct (RegExp.parse l); split; intros H'; try reflexivity; try discriminate H';
    congruence.
Qed.

Lemma parse_app l tail :
  starred tail = false ->
  RegExp.parse (l ++ tail)
  = match RegExp.parse l with
    | Some p => app p <$> RegExp.parse tail
    | None => None
    end.
Proof.
  intros Htail. remember (length l) as n eqn:Hn.
  assert (length l <= n)%nat as Hle by lia. clear Hn. revert l Hle.
  induction n as [|n IH]; intros l Hle.
  - destruct l; [|cbn [length] in Hle; lia]. cbn [app RegExp.parse].
    destruct (RegExp.parse tail); reflexivity.
  - destruct l as [|c [|q r]].
    + cbn [app RegExp.parse]. destruct (RegExp.parse tail); reflexivity.
    + cbn [app]. destruct (Ascii.eqb_spec c "*") as [->|Hc]; [reflexivity|].
      destruct tail as [|t tail].
      * cbn [RegExp.parse]. rewrite (proj2 (Ascii.eqb_neq c "*") Hc). reflexivity.
      * cbn [starred] in Htail. apply Ascii.eqb_neq in Htail.
        rewrite (parse_once c t tail Hc Htail).
        cbn [RegExp.parse]. rewrite (proj2 (Ascii.eqb_neq c "*") Hc). reflexivity.
    + change ((c :: q :: r) ++ tail) with (c :: q :: (r ++ tail)).
      destruct (Ascii.eqb_spec c "*") as [->|Hc]; [reflexivity|].
      destruct (Ascii.eqb_spec q "*") as [->|Hq].
      * rewrite !(parse_quantified c _ Hc).
        rewrite (IH r) by (cbn [length] in Hle; lia).
        destruct (RegExp.parse r); [|reflexivity].
        destruct (RegExp.parse tail); reflexivity.
      * rewrite !(parse_once c q _ Hc Hq).
        change (q :: r ++ tail) with ((q :: r) ++ tail).
        rewrite (IH (q :: r)) by (cbn [length] in *; lia).
        destruct (RegExp.parse (q :: r)); [|reflexivity].
        destruct (RegExp.parse tail); reflexivity.
Qed.

Lemma existsb_unsupported_app a b :
  existsb RegExp.unsupported_char (a ++ b) = false ->
  existsb RegExp.unsupported_char a = false /\ existsb RegExp.unsupported_char b = false.
Proof. rewrite existsb_app. apply orb_false_elim. Qed.

Lemma doubled_star_free pre l :
  forallb (fun c => negb (Ascii.eqb c "*")) pre = true ->
  doubled (pre ++ l) = doubled l /\ (pre <> [] -> starred (pre ++ l) = false).
Proof.
  induction pre as [|c pre IH]; intros H; [split; [reflexivity|congruence]|].
  cbn [forallb] in H. apply andb_prop in H as [Hc Hpre]. destruct (IH Hpre) as [IHd _].
  apply negb_true_iff in Hc. split.
  - change ((c :: pre) ++ l) with (c :: (pre ++ l)).
    destruct (pre ++ l) as [|d r] eqn:E.
    + apply app_eq_nil in E as [_ ->]. reflexivity.
    + change (doubled (c :: d :: r))
        with ((Ascii.eqb c "*" && Ascii.eqb d "*") || doubled (d :: r)).
      rewrite Hc. exact IHd.
  - intros _. exact Hc.
Qed.

(** A string is free of asterisks, or splits at its first one. *)
Lemma first_star s :
  star_free s = true
  \/ exists pre post, s = pre +:+ "*" +:+ post /\ star_free pre = true.
Proof.
  induction s as [|c s IH]; [left; reflexivity|].
  destruct (Ascii.eqb_spec c "*") as [->|Hc].
  - right. exists EmptyString, s. split; reflexivity.
  - destruct IH as [IH|(pre & post & -> & Hpre)].
    + left. cbn [star_free]. rewrite IH, (proj2 (Ascii.eqb_neq c "*") Hc). reflexivity.
    + right. exists (String c pre), post. split; [reflexivity|].
      cbn [star_free]. rewrite Hpre, (proj2 (Ascii.eqb_neq c "*") Hc). reflexivity.
Qed.

Lemma star_free_chars s :
  star_free s = true ->
  forallb (fun c => negb (Ascii.eqb c "*")) (list_ascii_of_string s) = true.
Proof.
  induction s as [|c s IH]; intros H; [reflexivity|].
  cbn [star_free list_ascii_of_string forallb] in *. apply andb_prop in H as [Hc Hs].
  rewrite Hc, (IH Hs). reflexivity.
Qed.

(** What the translation of the first asterisk keeps: the characters that
    are pattern syntax, the asterisks in a row; and the result does not begin
    with an asterisk. *)
Lemma replace_keeps s :
  existsb RegExp.unsupported_char (list_ascii_of_string (JS.replace "*" ".*" s))
  = existsb RegExp.unsupported_char (list_ascii_of_string s)
  /\ doubled (list_ascii_of_string (JS.replace "*" ".*" s))
     = doubled (list_ascii_of_string s)
  /\ starred (list_ascii_of_string (JS.replace "*" ".*" s)) = false.
Proof.
  destruct (first_star s) as [Hfree|(pre & post & -> & Hpre)].
  - rewrite (replace_no_star s Hfree). split; [reflexivity|]. split; [reflexivity|].
    destruct s as [|c s]; [reflexivity|].
    cbn [star_free] in Hfree. apply andb_prop in Hfree as [Hc _].
    apply negb_true_iff in Hc. exact Hc.
  - rewrite (replace_first_star pre post Hpre), !chars_append, !existsb_app.
    pose proof (star_free_chars pre Hpre) as Hchars.
    split; [reflexivity|]. split.
    + rewrite (proj1 (doubled_star_free _ (list_ascii_of_string ".*" ++ _) Hchars)).
      rewrite (proj1 (doubled_star_free _ (list_ascii_of_string "*" ++ _) Hchars)).
      reflexivity.
    + destruct (list_ascii_of_string pre) as [|c l] eqn:E; [reflexivity|].
      rewrite <- E in *. apply (proj2 (doubled_star_free _ _ Hchars)).
      rewrite E. discriminate.
Qed.

Lemma doubled_selector_throws w level s :
  is_Some (getValidLevel level) ->
  existsb RegExp.unsupported_char (list_ascii_of_string s) = false ->
  doubled (list_ascii_of_string s) = true ->
  setLogLevel (SelString s) level w = (w, JS.Throw JS.SyntaxError).
Proof.
  intros [theLevel Hv] Hs Hd. unfold setLogLevel. rewrite Hv, new_anchored.
  destruct (replace_keeps s) as (-> & Hdoubled & _). rewrite Hs.
  rewrite (proj2 (parse_None _)); [reflexivity|].
  rewrite Hdoubled, Hd. apply orb_true_r.
Qed.

(** X13: for a string selector without pattern syntax other than [.]
    and [*], and a level that normalizes, [setLogLevel] throws a
    [SyntaxError] exactly when the selector has two asterisks in a row (the
    pattern built has a quantifier with nothing to repeat): nothing is then
    changed nor stored.  Every other such selector gives a valid pattern:
    the call throws no [SyntaxError], and returns a message when
    [storeConfig] can complete. *)
Theorem doubled_star_throws (w : World) (level : LevelInput) (s : string) :
  is_Some (getValidLevel level) ->
  existsb RegExp.unsupported_char (list_ascii_of_string s) = false ->
  (doubled (list_ascii_of_string s) = true ->
   RegExp.new ("^" +:+ JS.replace "*" ".*" s +:+ "$") = RegExp.Invalid
   /\ setLogLevel (SelString s) level w = (w, JS.Throw JS.SyntaxError))
  /\ (doubled (list_ascii_of_string s) = false ->
      (exists regexp, RegExp.new ("^" +:+ JS.replace "*" ".*" s +:+ "$") = RegExp.Pattern regexp)
      /\ outcome (setLogLevel (SelString s) level) w <> JS.Throw JS.SyntaxError
      /\ (storable (factory w) ->
          exists message, outcome (setLogLevel (SelString s) level) w = JS.Normal message)).
Proof.
  intros Hv Hs.
  assert (RegExp.new ("^" +:+ JS.replace "*" ".*" s +:+ "$")
          = match RegExp.parse (list_ascii_of_string (JS.replace "*" ".*" s)) with
            | Some p => RegExp.Pattern p
            | None => RegExp.Invalid
            end) as Hnew.
  { rewrite new_anchored. destruct (replace_keeps s) as (-> & _). rewrite Hs. reflexivity. }
  destruct (replace_keeps s) as (_ & Hdoubled & Hstarred).
  split.
  - intros Hd. split; [|exact (doubled_selector_throws w level s Hv Hs Hd)].
    rewrite Hnew, (proj2 (parse_None _)); [reflexivity|].
    rewrite Hdoubled, Hd. apply orb_true_r.
  - intros Hd.
    destruct (RegExp.parse (list_ascii_of_string (JS.replace "*" ".*" s))) as [p|] eqn:Hp.
    + split; [exists p; exact Hnew|]. destruct Hv as [theLevel Hv]. split.
      * unfold outcome, setLogLevel. rewrite Hv, Hnew.
        destruct (set_matching_spec true (JS.replace "*" ".*" s)
                    (fun loggerName _ => RegExp.test p loggerName) theLevel w)
          as (message & -> & _).
        match goal with |- context [storeConfig ?swept] =>
          destruct (storeConfig swept) as [w' [[]|e|]] eqn:Hstore end;
          [discriminate| |discriminate].
        unfold storeConfig in Hstore.
        destruct (storage _); [destruct (appenders _)|]; try discriminate Hstore.
        injection Hstore as _ <-. discriminate.
      * intros Hst. unfold outcome, setLogLevel. rewrite Hv, Hnew.
        rewrite (set_matching_full _ _ _ _ _ Hst). eexists. reflexivity.
    + apply parse_None in Hp. rewrite Hdoubled, Hd, Hstarred in Hp. discriminate Hp.
Qed.

Lemma doubled_star_throws_witness :
  setLogLevel (SelString "test**.b") (InLevel DEBUG) page = (page, JS.Throw JS.SyntaxError)
  /\ exists message,
       outcome (setLogLevel (SelString "test*.b*") (InLevel DEBUG)) page = JS.Normal message.
Proof.
  split.
  - apply (proj1 (doubled_star_throws page (InLevel DEBUG) "test**.b"
                    ltac:(eexists; reflexivity) eq_refl)).
    reflexivity.
  - apply (proj2 (doubled_star_throws page (InLevel DEBUG) "test*.b*"
                    ltac:(eexists; reflexivity) eq_refl)).
    + reflexivity.
    + right. eexists. reflexivity.
Defined.

(** *** The asterisks after the first *)

(** C10 as stated fails on its example: the selector [a*b*] gives the
    pattern [^a.*b*$], which matches [aXbY] (the [.*] takes [XbY], the [b*]
    nothing), and [setLogLevel] sets the logger of that name. *)
Lemma a_star_b_star_matches_aXbY :
  RegExp.new ("^" +:+ JS.replace "*" ".*" "a*b*" +:+ "$")
  = RegExp.Pattern [RegExp.Once (RegExp.Char "a"); RegExp.Star RegExp.Dot;
                    RegExp.Star (RegExp.Char "b")]
  /\ RegExp.test [RegExp.Once (RegExp.Char "a"); RegExp.Star RegExp.Dot;
                  RegExp.Star (RegExp.Char "b")] "aXbY" = true
  /\ outcome (LoggerFactory.setLogLevel (LoggerFactory.SelString "a*b*") (InString "DEBUG"))
       page_aXbY
     = JS.Normal ("Successfully set 2 logger(s) whose name matches /a.*b*/ "
                  +:+ "to level DEBUG: app,aXbY")
  /\ (Logger.level <$>
        LoggerFactory.loggers
          (exec (LoggerFactory.setLogLevel (LoggerFactory.SelString "a*b*") (InString "DEBUG"))
             page_aXbY) !! 1%nat)
     = Some (Some DEBUG).
Proof. vm_compute. repeat split; reflexivity. Qed.

(** C10, amended: only the first asterisk of a selector becomes [.*], what
    follows it is kept as it is.  In a selector without pattern syntax
    other than [.] and [*], an asterisk kept that way that follows a
    character other than an asterisk quantifies that character, wherever it
    stands; and two asterisks in a row make the pattern invalid:
    [setLogLevel] throws a [SyntaxError].  So [a*b*] gives [^a.*b*$], which
    matches [aXbY] and also [aX], where no [b] occurs; [*ab*] gives
    [^.*ab*$], which does not match [xabY] although it matches [xabbb]; and
    [a**] makes [setLogLevel] throw. *)
Theorem later_stars_are_quantifiers :
  (forall pre post : string,
      star_free pre = true ->
      JS.replace "*" ".*" (pre +:+ "*" +:+ post) = pre +:+ ".*" +:+ post)
  /\ (forall (pre mid post : string) (c : ascii),
        star_free pre = true ->
        c <> "*"%char ->
        existsb RegExp.unsupported_char
          (list_ascii_of_string (pre +:+ "*" +:+ mid +:+ String c ("*" +:+ post))) = false ->
        RegExp.new
          ("^" +:+ JS.replace "*" ".*" (pre +:+ "*" +:+ mid +:+ String c ("*" +:+ post))
           +:+ "$")
        = match RegExp.parse (list_ascii_of_string mid),
                RegExp.parse (list_ascii_of_string post) with
          | Some between, Some after =>
              RegExp.Pattern
                (map (fun c => RegExp.Once (RegExp.atom_of c)) (list_ascii_of_string pre)
                 ++ RegExp.Star RegExp.Dot
                 :: between ++ RegExp.Star (RegExp.atom_of c) :: after)
          | _, _ => RegExp.Invalid
          end)
  /\ (forall (w : World) (level : LevelInput) (s : string),
        is_Some (getValidLevel level) ->
        existsb RegExp.unsupported_char (list_ascii_of_string s) = false ->
        doubled (list_ascii_of_string s) = true ->
        setLogLevel (SelString s) level w = (w, JS.Throw JS.SyntaxError))
  /\ RegExp.new ("^" +:+ JS.replace "*" ".*" "a*b*" +:+ "$")
     = RegExp.Pattern [RegExp.Once (RegExp.Char "a"); RegExp.Star RegExp.Dot;
                       RegExp.Star (RegExp.Char "b")]
  /\ map (RegExp.test [RegExp.Once (RegExp.Char "a"); RegExp.Star RegExp.Dot;
                       RegExp.Star (RegExp.Char "b")]) ["aXbY"; "aX"; "Xab"]
     = [true; true; false]
  /\ RegExp.new ("^" +:+ JS.replace "*" ".*" "*ab*" +:+ "$")
     = RegExp.Pattern [RegExp.Star RegExp.Dot; RegExp.Once (RegExp.Char "a");
                       RegExp.Star (RegExp.Char "b")]
  /\ map (RegExp.test [RegExp.Star RegExp.Dot; RegExp.Once (RegExp.Char "a");
                       RegExp.Star (RegExp.Char "b")]) ["xabY"; "xabbb"; "xa"]
     = [false; true; true]
  /\ setLogLevel (SelString "a**") (InString "DEBUG") page_aXbY
     = (page_aXbY, JS.Throw JS.SyntaxError).
Proof.
  split; [exact replace_first_star|]. split; [|split].
  - intros pre mid post c Hpre Hc Hs. rewrite new_anchored.
    destruct (replace_keeps (pre +:+ "*" +:+ mid +:+ String c ("*" +:+ post))) as (-> & _).
    rewrite Hs, (replace_first_star pre _ Hpre), !chars_append.
    change (list_ascii_of_string (String c ("*" +:+ post)))
      with (c :: "*"%char :: list_ascii_of_string post).
    rewrite (parse_plain (list_ascii_of_string pre) _ (star_free_chars pre Hpre))
      by discriminate.
    change (list_ascii_of_string ".*" ++ list_ascii_of_string mid ++ c :: "*"%char
              :: list_ascii_of_string post)
      with ("."%char :: "*"%char
              :: (list_ascii_of_string mid ++ c :: "*"%char :: list_ascii_of_string post)).
    rewrite (parse_quantified "." _ ltac:(discriminate)).
    rewrite parse_app by (cbn [starred]; apply Ascii.eqb_neq; exact Hc).
    rewrite (parse_quantified c _ Hc).
    destruct (RegExp.parse (list_ascii_of_string mid)) as [between|]; [|reflexivity].
    destruct (RegExp.parse (list_ascii_of_string post)) as [after|]; reflexivity.
  - exact doubled_selector_throws.
  - vm_compute. repeat split; reflexivity.
Qed.

Lemma later_stars_are_quantifiers_witness :
  JS.replace "*" ".*" ("te" +:+ "*" +:+ "st*") = "te" +:+ ".*" +:+ "st*"
  /\ RegExp.new ("^" +:+ JS.replace "*" ".*" ("te" +:+ "*" +:+ "s" +:+ String "t" ("*" +:+ ""))
                 +:+ "$")
     = match RegExp.parse (list_ascii_of_string "s"),
             RegExp.parse (list_ascii_of_string "") with
       | Some between, Some after =>
           RegExp.Pattern
             (map (fun c => RegExp.Once (RegExp.atom_of c)) (list_ascii_of_string "te")
              ++ RegExp.Star RegExp.Dot
              :: between ++ RegExp.Star (RegExp.atom_of "t") :: after)
       | _, _ => RegExp.Invalid
       end
  /\ setLogLevel (SelString "te**st") (InString "DEBUG") page
     = (page, JS.Throw JS.SyntaxError).
Proof.
  split; [|split].
  - apply (proj1 later_stars_are_quantifiers "te" "st*"). reflexivity.
  - apply (proj1 (proj2 later_stars_are_quantifiers) "te" "s" "" "t"%char).
    + reflexivity.
    + discriminate.
    + reflexivity.
  - apply (proj1 (proj2 (proj2 later_stars_are_quantifiers)) page (InString "DEBUG") "te**st").
    + eexists. reflexivity.
    + reflexivity.
    + reflexivity.
Defined.

End Names.

(** ** The local-storage appender from any state *)

Section AppenderStates.

Import LocalStorageAppender.





End AppenderStates.

(** ** What the factory shows *)

Section Views.

Import LoggerFactory.
Import LoggerFactoryViews.

Lemma lastLog_first (objects : Appender -> Sink) (f : t) before a after p :
  appender_list f = before ++ a :: after ->
  Forall (fun a => objects a = Plain) before ->
  objects a = Persistent p ->
  lastLog objects f
  = match LocalStorageAppender.localStorage p with
    | Some (LocalStorageAppender.Entries es) =>
        JS.Normal (JS.join LF (map Entry_toString es))
    | Some LocalStorageAppender.NoItem | Some (LocalStorageAppender.NonArray false) =>
        JS.Normal "No log entry exists!"
    | Some (LocalStorageAppender.NonArray true) => JS.Throw JS.TypeError
    | Some LocalStorageAppender.Garbled | None => JS.Normal EmptyString
    end.
Proof.
  intros Hl Hbefore Ha. unfold lastLog. rewrite Hl.
  assert (List.find
            (fun a => match objects a with Persistent _ => true | Plain => false end)
            (before ++ a :: after) = Some a) as ->.
  { clear Hl. induction Hbefore as [|b l Hb _ IH]; cbn [app List.find].
    - rewrite Ha. reflexivity.
    - rewrite Hb. exact IH. }
  rewrite Ha. unfold LocalStorageAppender.getLastLog, LocalStorageAppender.parse_stored.
  destruct (LocalStorageAppender.localStorage p) as [[| |es|[|]]|]; reflexivity.
Qed.

(** X15: [lastLog] consults the first active appender that has a
    [getLastLog] method, and no other.  If there is none, or if what is
    stored under its key is nothing or a falsy value, the result is
    [No log entry exists!]; if what is stored does not parse (or that
    appender has no storage), the result is the empty string; if it is an
    array, the result is its entries, one per line, the values of an entry
    separated by commas, [null] rendered as nothing; and if it is a truthy
    value that is no array, the getter throws a [TypeError]. *)
Theorem lastLog_reads_the_first_store (objects : Appender -> Sink) (f : t) :
  (Forall (fun a => objects a = Plain) (appender_list f) ->
   lastLog objects f = JS.Normal "No log entry exists!")
  /\ (forall before a after p,
        appender_list f = before ++ a :: after ->
        Forall (fun a => objects a = Plain) before ->
        objects a = Persistent p ->
        lastLog objects f
        = match LocalStorageAppender.localStorage p with
          | Some (LocalStorageAppender.Entries es) =>
              JS.Normal (JS.join LF (map Entry_toString es))
          | Some LocalStorageAppender.NoItem | Some (LocalStorageAppender.NonArray false) =>
              JS.Normal "No log entry exists!"
          | Some (LocalStorageAppender.NonArray true) => JS.Throw JS.TypeError
          | Some LocalStorageAppender.Garbled | None => JS.Normal EmptyString
          end).
Proof.
  split.
  - intros Hall. unfold lastLog.
    assert (List.find
              (fun a => match objects a with Persistent _ => true | Plain => false end)
              (appender_list f) = None) as ->; [|reflexivity].
    induction Hall as [|a l Ha _ IH]; [reflexivity|].
    cbn [List.find]. rewrite Ha. exact IH.
  - apply lastLog_first.
Qed.

Lemma lastLog_reads_the_first_store_witness :
  lastLog (fun a => match a with
                    | 1%nat => Persistent (LocalStorageAppender.mk
                                             (Some LocalStorageAppender.Garbled) None)
                    | _ => Plain
                    end)
    (with_appenders (Some [("console", 0%nat); ("ls", 1%nat)]) (factory page))
  = match LocalStorageAppender.localStorage
            (LocalStorageAppender.mk (Some LocalStorageAppender.Garbled) None) with
    | Some (LocalStorageAppender.Entries es) =>
        JS.Normal (JS.join LF (map Entry_toString es))
    | Some LocalStorageAppender.NoItem | Some (LocalStorageAppender.NonArray false) =>
        JS.Normal "No log entry exists!"
    | Some (LocalStorageAppender.NonArray true) => JS.Throw JS.TypeError
    | Some LocalStorageAppender.Garbled | None => JS.Normal EmptyString
    end.
Proof.
  apply (proj2 (lastLog_reads_the_first_store _ _) [0%nat] 1%nat []).
  - reflexivity.
  - apply Forall_cons. split; [reflexivity|apply Forall_nil_2].
  - reflexivity.
Defined.





End Views.

(** ** The listing and the indices *)

Section Listing.

Import LoggerFactory.
Import LoggerFactoryViews.

Lemma collect_forEach w cache acc i :
  forEach (collect w) cache (acc, i)
  = (acc ++ lines_from w cache i, i + Z.of_nat (length cache)).
Proof.
  revert acc i. induction cache as [|[name r] cache IH]; intros acc i.
  - cbn. rewrite app_nil_r, Z.add_0_r. reflexivity.
  - unfold forEach in *. cbn [fold_left lines_from length collect fst snd].
    rewrite IH. f_equal; [|lia].
    destruct (loggers w !! r); [rewrite <- app_assoc|]; reflexivity.
Qed.

Lemma lines_lines_from w : lines w = lines_from w (cachedLoggers (factory w)) 0.
Proof. unfold lines. rewrite collect_forEach. reflexivity. Qed.

Lemma lines_from_lookup w cache i k :
  Forall (fun entry : string * loc => is_Some (loggers w !! entry.2)) cache ->
  lines_from w cache i !! k
  = cache !! k ≫= fun entry : string * loc => line (i + Z.of_nat k) <$> loggers w !! entry.2.
Proof.
  intros Hall. revert i k. induction Hall as [|[name r] cache [l Hl] _ IH]; intros i k.
  - reflexivity.
  - cbn [lines_from]. cbn [snd] in Hl. rewrite Hl. destruct k as [|k].
    + change (Some (line i l) = line (i + Z.of_nat 0) <$> loggers w !! r).
      rewrite Hl, Z.add_0_r. reflexivity.
    + cbn [app lookup list_lookup]. change (lines_from w cache (i + 1) !! k
        = cache !! k ≫= fun entry : string * loc =>
                          line (i + Z.of_nat (S k)) <$> loggers w !! entry.2).
      rewrite IH. replace (i + 1 + Z.of_nat k) with (i + Z.of_nat (S k)) by lia.
      reflexivity.
Qed.

Lemma lines_from_length w cache i :
  Forall (fun entry : string * loc => is_Some (loggers w !! entry.2)) cache ->
  length (lines_from w cache i) = length cache.
Proof.
  intros Hall. revert i. induction Hall as [|[name r] cache [l Hl] _ IH]; intros i.
  - reflexivity.
  - cbn [lines_from length]. cbn [snd] in Hl. rewrite Hl. cbn [app length].
    rewrite IH. reflexivity.
Qed.

Lemma sound_cache_holds w :
  cache_sound w ->
  Forall (fun entry : string * loc => is_Some (loggers w !! entry.2))
    (cachedLoggers (factory w)).
Proof.
  intros (_ & _ & Hhold & _). apply Forall_forall. intros [name r] Hin.
  destruct (Hhold name r Hin) as (_ & l & Hl & _). exists l. exact Hl.
Qed.

Lemma listing_lines (w : World) :
  cache_sound w ->
  (cachedLoggers (factory w) = [] ->
   listLoggers w = [Console.mkCall Console.log [JS.VString "Found no loggers"]])
  /\ (cachedLoggers (factory w) <> [] ->
      listLoggers w
      = Console.mkCall Console.group [JS.VString "Available loggers"]
        :: map (fun line => Console.mkCall Console.log [JS.VString line]) (lines w)
        ++ [Console.mkCall Console.groupEnd []])
  /\ length (lines w) = length (cachedLoggers (factory w))
  /\ (forall k name r l,
        cachedLoggers (factory w) !! k = Some (name, r) ->
        loggers w !! r = Some l ->
        lines w !! k = Some (line (Z.of_nat k) l)
        /\ forall level theLevel,
             getValidLevel level = Some theLevel ->
             lines (exec (setLogLevel (SelNumber (Z.of_nat k)) level) w) !! k
             = Some (line (Z.of_nat k) (Logger.set_level (Some theLevel) l))
             /\ forall j, j <> k ->
                  lines (exec (setLogLevel (SelNumber (Z.of_nat k)) level) w) !! j
                  = lines w !! j).
Proof.
  intros Hsound. pose proof (sound_cache_holds w Hsound) as Hall.
  pose proof (lines_from_length w _ 0 Hall) as Hlen. rewrite <- lines_lines_from in Hlen.
  split; [|split; [|split]].
  - intros Hnil. unfold listLoggers. rewrite Hnil. reflexivity.
  - intros Hne. unfold listLoggers. fold (lines w).
    destruct (lines w) as [|first others] eqn:Hlines; [|reflexivity].
    destruct (cachedLoggers (factory w)); [contradiction|discriminate Hlen].
  - exact Hlen.
  - intros k name r l Hk Hl. split.
    + rewrite lines_lines_from, (lines_from_lookup _ _ _ _ Hall), Hk. cbn [mbind option_bind snd].
      rewrite Hl. reflexivity.
    + intros level theLevel Hv.
      destruct Hsound as (_ & Hnd & _ & Hst).
      assert (exec (setLogLevel (SelNumber (Z.of_nat k)) level) w
              = leveled theLevel [(name, r)] w) as ->.
      { unfold exec, setLogLevel. rewrite Hv, (set_matching_full _ _ _ _ _ Hst).
        rewrite selected_index. cbn [fst].
        destruct (Z.leb_spec 0 (Z.of_nat k)); [|lia].
        rewrite Z.sub_0_r, Nat2Z.id, Hk. reflexivity. }
      assert (Forall (fun entry : string * loc =>
                        is_Some (loggers (leveled theLevel [(name, r)] w) !! entry.2))
                (cachedLoggers (factory (leveled theLevel [(name, r)] w)))) as Hall'.
      { change (Forall (fun entry : string * loc =>
                          is_Some (alter (Logger.set_level (Some theLevel)) r (loggers w)
                                   !! entry.2))
                  (cachedLoggers (factory w))).
        eapply Forall_impl; [exact Hall|].
        intros [n r0] Hr0. apply lookup_lt_is_Some. rewrite length_alter.
        apply lookup_lt_is_Some. exact Hr0. }
      split.
      * rewrite lines_lines_from, (lines_from_lookup _ _ _ _ Hall').
        change (cachedLoggers (factory (leveled theLevel [(name, r)] w)))
          with (cachedLoggers (factory w)).
        rewrite Hk. cbn [mbind option_bind snd].
        change (loggers (leveled theLevel [(name, r)] w))
          with (alter (Logger.set_level (Some theLevel)) r (loggers w)).
        apply fmap_Some. exists (Logger.set_level (Some theLevel) l). split; [|reflexivity].
        rewrite list_lookup_alter, decide_True by reflexivity.
        apply fmap_Some. exists l. split; [exact Hl|reflexivity].
      * intros j Hj.
        rewrite !lines_lines_from, (lines_from_lookup _ _ _ _ Hall'),
          (lines_from_lookup _ _ _ _ Hall).
        change (cachedLoggers (factory (leveled theLevel [(name, r)] w)))
          with (cachedLoggers (factory w)).
        destruct (cachedLoggers (factory w) !! j) as [[n r0]|] eqn:Hjk; [|reflexivity].
        cbn [mbind option_bind snd].
        change (loggers (leveled theLevel [(name, r)] w))
          with (alter (Logger.set_level (Some theLevel)) r (loggers w)).
        rewrite list_lookup_alter_ne; [reflexivity|].
        intros ->. apply Hj.
        apply (NoDup_lookup _ j k r0 Hnd); rewrite list_lookup_fmap.
        -- rewrite Hjk. reflexivity.
        -- rewrite Hk. reflexivity.
Qed.

(** X17: [listLoggers] and the index selector agree.  On a page whose
    cache is sound the listing has one line per cached logger, in the order
    in which the loggers were obtained, between a [group] and a [groupEnd]
    call (one [log] call, [Found no loggers], if there is none); line [k]
    reads [    [k]: name (level: L), (root: R)] with the name, the local
    level ([undefined] if none) and the root level of the [k]-th logger
    ([k] below 10^21).  After [setLogLevel(k, level)] with a valid level,
    line [k] shows that level and every other line is as before. *)
Theorem listed_index_selects (w : World) :
  cache_sound w ->
  (cachedLoggers (factory w) = [] ->
   listLoggers w = [Console.mkCall Console.log [JS.VString "Found no loggers"]])
  /\ (cachedLoggers (factory w) <> [] ->
      listLoggers w
      = Console.mkCall Console.group [JS.VString "Available loggers"]
        :: map (fun line => Console.mkCall Console.log [JS.VString line]) (lines w)
        ++ [Console.mkCall Console.groupEnd []])
  /\ length (lines w) = length (cachedLoggers (factory w))
  /\ (forall k name r l,
        cachedLoggers (factory w) !! k = Some (name, r) ->
        loggers w !! r = Some l ->
        Z.of_nat k < 10 ^ 21 ->
        lines w !! k
        = Some ("    [" +:+ pretty (Z.of_nat k) +:+ "]: " +:+ name +:+ " (level: "
                +:+ match Logger.level l with
                    | Some level => Level_name level
                    | None => "undefined"
                    end
                +:+ "), (root: " +:+ Level_name (Logger.rootLevel l) +:+ ")")
        /\ forall level theLevel,
             getValidLevel level = Some theLevel ->
             lines (exec (setLogLevel (SelNumber (Z.of_nat k)) level) w) !! k
             = Some ("    [" +:+ pretty (Z.of_nat k) +:+ "]: " +:+ name +:+ " (level: "
                     +:+ Level_name theLevel
                     +:+ "), (root: " +:+ Level_name (Logger.rootLevel l) +:+ ")")
             /\ forall j, j <> k ->
                  lines (exec (setLogLevel (SelNumber (Z.of_nat k)) level) w) !! j
                  = lines w !! j).
Proof.
  intros Hsound. destruct (listing_lines w Hsound) as (Hnone & Hsome & Hlen & Hlines).
  split; [exact Hnone|]. split; [exact Hsome|]. split; [exact Hlen|].
  intros k name r l Hk Hl _. destruct (Hlines k name r l Hk Hl) as [Hline Hset].
  assert (Logger.name l = name) as Hname.
  { destruct Hsound as (_ & _ & Hent & _).
    destruct (Hent name r (list_elem_of_lookup_2 _ _ _ Hk)) as (_ & l0 & Hl0 & Hname).
    assert (Some l0 = Some l) as [= ->] by (rewrite <- Hl0; exact Hl). exact Hname. }
  split.
  - rewrite Hline, <- Hname. reflexivity.
  - intros level theLevel Hv. destruct (Hset level theLevel Hv) as [Hnew Hothers].
    split; [|exact Hothers].
    rewrite Hnew, <- Hname. destruct l. reflexivity.
Qed.

Lemma listed_index_selects_witness :
  lines page !! 0%nat = Some "    [0]: app (level: undefined), (root: INFO)"
  /\ lines (exec (setLogLevel (SelNumber (Z.of_nat 0)) (InString "DEBUG")) page) !! 0%nat
     = Some "    [0]: app (level: DEBUG), (root: INFO)".
Proof.
  assert (cache_sound page) as Hsound.
  { split; [|split; [|split]].
    - vm_compute. apply NoDup_singleton.
    - vm_compute. apply NoDup_singleton.
    - intros name r Hin. vm_compute in Hin. apply list_elem_of_singleton in Hin.
      injection Hin as -> ->. split; [discriminate|].
      eexists. split; reflexivity.
    - right. eexists. reflexivity. }
  pose proof (proj2 (proj2 (proj2 (listed_index_selects page Hsound))) 0%nat "app" 0%nat
                (Logger.new "app" INFO None [0%nat]) eq_refl eq_refl eq_refl)
    as [Hline Hset].
  split; [exact Hline|].
  exact (proj1 (Hset (InString "DEBUG") DEBUG eq_refl)).
Defined.

End Listing.

(** ** [init] and a second [restoreConfig] *)

Section Init.

Import LoggerFactory.

Lemma restored_storage f : storage (restored f) = storage f.
Proof.
  unfold restored. destruct (storage f) as [[| |parsed]|] eqn:Hs; try exact Hs; try reflexivity.
  destruct (LoggerFactoryConfig.levels parsed ≫= valid_levels),
    (truthy (parsed_root (LoggerFactoryConfig.levels parsed))),
    (LoggerFactoryConfig.appenders parsed ≫= resolve_appenders f); exact Hs.
Qed.

Lemma restored_registered f : registeredAppenders (restored f) = registeredAppenders f.
Proof.
  unfold restored. destruct (storage f) as [[| |parsed]|]; try reflexivity.
  destruct (LoggerFactoryConfig.levels parsed ≫= valid_levels),
    (truthy (parsed_root (LoggerFactoryConfig.levels parsed))),
    (LoggerFactoryConfig.appenders parsed ≫= resolve_appenders f); reflexivity.
Qed.


Lemma resolve_appenders_same f f' names :
  registeredAppenders f = registeredAppenders f' ->
  resolve_appenders f names = resolve_appenders f' names.
Proof.
  intros Hreg.
  assert (forall type, getValidAppender type f = getValidAppender type f') as Hg.
  { intros type. unfold getValidAppender. rewrite Hreg. reflexivity. }
  unfold resolve_appenders. generalize (@None (list (string * Appender))).
  induction names as [|type names IH]; intros memo; [reflexivity|].
  cbn [fold_left]. rewrite Hg. apply IH.
Qed.

Lemma restored_idempotent f : restored (restored f) = restored f.
Proof.
  unfold restored at 1. rewrite restored_storage.
  destruct (storage f) as [[| |parsed]|] eqn:Hs; try reflexivity.
  - unfold restored. rewrite Hs. reflexivity.
  - assert (LoggerFactoryConfig.appenders parsed ≫= resolve_appenders (restored f)
            = LoggerFactoryConfig.appenders parsed ≫= resolve_appenders f) as ->.
    { destruct (LoggerFactoryConfig.appenders parsed) as [names|]; [|reflexivity].
      apply resolve_appenders_same, restored_registered. }
    unfold restored. rewrite Hs.
    destruct (LoggerFactoryConfig.levels parsed ≫= valid_levels),
      (truthy (parsed_root (LoggerFactoryConfig.levels parsed))),
      (LoggerFactoryConfig.appenders parsed ≫= resolve_appenders f); reflexivity.
Qed.

Lemma last_name_snoc cache name (r0 r : loc) :
  last_name (cache ++ [(name, r0)]) r
  = if decide (r0 = r) then Some name else last_name cache r.
Proof. unfold last_name. rewrite fold_left_app. reflexivity. Qed.

Lemma alters_last change cache ls (r : loc) :
  (forall n m l, change n (change m l) = change n l) ->
  alters change cache ls !! r
  = match last_name cache r with
    | Some n => change n <$> ls !! r
    | None => ls !! r
    end.
Proof.
  intros Habs. induction cache as [|[name r0] cache IH] using rev_ind; [reflexivity|].
  rewrite last_name_snoc.
  assert (alters change (cache ++ [(name, r0)]) ls
          = alter (change name) r0 (alters change cache ls)) as ->.
  { unfold alters. rewrite fold_left_app. reflexivity. }
  destruct (decide (r0 = r)) as [->|Hne].
  - rewrite list_lookup_alter_eq.
    transitivity (change name <$> match last_name cache r with
                                  | Some n => change n <$> ls !! r
                                  | None => ls !! r
                                  end); [f_equal; exact IH|].
    destruct (last_name cache r); [|reflexivity].
    rewrite <- option_fmap_compose. apply option_fmap_ext. intros l. apply Habs.
  - rewrite list_lookup_alter_ne by exact Hne. exact IH.
Qed.

Lemma alters_absorb change cache ls :
  (forall n m l, change n (change m l) = change n l) ->
  alters change cache (alters change cache ls) = alters change cache ls.
Proof.
  intros Habs. apply list_eq. intros r.
  pose proof (alters_last change cache ls r Habs) as Once.
  etransitivity; [exact (alters_last change cache (alters change cache ls) r Habs)|].
  revert Once. destruct (last_name cache r) as [n|]; intros Once; [|reflexivity].
  transitivity (change n <$> (change n <$> ls !! r)); [f_equal; exact Once|].
  rewrite <- option_fmap_compose.
  transitivity (change n <$> ls !! r); [|symmetry; exact Once].
  apply option_fmap_ext. intros l. apply Habs.
Qed.

Lemma refreshed_absorbs f n m l : refreshed n f (refreshed m f l) = refreshed n f l.
Proof. destruct l. reflexivity. Qed.





(** X19: restoring twice is restoring once.  A second [restoreConfig]
    on the same storage changes neither the factory nor any logger (a
    registered producer being a function that returns the same appender on
    every call); so does any later one. *)
Theorem restoreConfig_idempotent (w : World) :
  restoreConfig (exec restoreConfig w) = (exec restoreConfig w, JS.Normal tt).
Proof.
  unfold exec. rewrite !restoreConfig_spec. cbn [fst factory loggers].
  rewrite restored_idempotent, restored_fields.
  rewrite alters_absorb by (intros n m l; apply refreshed_absorbs).
  reflexivity.
Qed.

End Init.
